(** * Retail dashboard: normalisation, merge, filters and derived metrics

    A shallow embedding of the data pipeline of [src/app.py]: the column and
    year resolvers, [to_long], [load_dataset_from_folder] and the block of the
    script that filters the dataset and attaches [Share], [YoY_Change] and
    [YoY_Growth].

    Conventions.
    - A Python [str] is a [string] whose characters are the code points
      0..255.  In that range the regular expression class [\d] is exactly
      [0-9], and [\s], [str.strip] and [str.lower] are the functions written
      out below.
    - A quantity is a finite rational number ([Q]) and its sums are exact:
      the wrap of an int64 sum, the rounding and overflow of float64 and an
      infinite quantity are outside the model.  [exact_quantities] describes
      the datasets on which the script computes the same sums; the
      properties that bound a sum or a quotient, or say that it is finite,
      assume it.  What the code gets from a division by zero or from a
      missing cell is modelled: [float] adds the two infinities and NaN.
    - A pandas exception is a value of [exn]; a function that can raise returns
      a [result].  A file is what [pd.read_csv] makes of it: a table or an
      exception ([csv_file]).
    - What differs between the versions of pandas is a parameter
      ([astype_str_na]), as are the grammar of numbers and [str] of a number.
    - [groupby(...).sum()], [pivot_table] and a [Series] used as a lookup table
      are finite maps ([gmap]). *)

From Stdlib Require Import ZArith QArith Qabs Qfield Lqa Ascii String.
From Stdlib Require Import DecimalString.
From stdpp Require Import base tactics option list gmap strings sorting.

Local Open Scope Z_scope.

(** ** Floating point values, with the infinities and NaN *)

Inductive float : Type :=
  | Fin (q : Q)
  | PInf
  | NInf
  | NaN.

Module Float.

Definition is_zero (q : Q) : bool := Qeq_bool q 0.
Definition is_pos (q : Q) : bool := negb (Qle_bool q 0).
Definition is_neg (q : Q) : bool := negb (Qle_bool 0 q).

(** [signed_inf q] is the infinity that has the sign of [q] (for [q <> 0]). *)
Definition signed_inf (q : Q) : float := if is_pos q then PInf else NInf.

Definition neg (x : float) : float :=
  match x with
  | Fin q => Fin (- q)
  | PInf => NInf
  | NInf => PInf
  | NaN => NaN
  end.

Definition add (x y : float) : float :=
  match x, y with
  | NaN, _ | _, NaN => NaN
  | Fin a, Fin b => Fin (a + b)
  | PInf, NInf | NInf, PInf => NaN
  | PInf, _ | _, PInf => PInf
  | NInf, _ | _, NInf => NInf
  end.

Definition sub (x y : float) : float := add x (neg y).

Definition mul (x y : float) : float :=
  match x, y with
  | NaN, _ | _, NaN => NaN
  | Fin a, Fin b => Fin (a * b)
  | Fin a, PInf | PInf, Fin a => if is_zero a then NaN else signed_inf a
  | Fin a, NInf | NInf, Fin a => if is_zero a then NaN else neg (signed_inf a)
  | PInf, PInf | NInf, NInf => PInf
  | PInf, NInf | NInf, PInf => NInf
  end.

(** Division as numpy and pandas do it: no exception, [x / 0] is an infinity
    with the sign of [x], and [0 / 0] is NaN. *)
Definition div (x y : float) : float :=
  match x, y with
  | NaN, _ | _, NaN => NaN
  | Fin a, Fin b =>
      if is_zero b then (if is_zero a then NaN else signed_inf a)
      else Fin (a / b)
  | Fin _, (PInf | NInf) => Fin 0
  | (PInf | NInf), (PInf | NInf) => NaN
  | PInf, Fin b => if is_neg b then NInf else PInf
  | NInf, Fin b => if is_neg b then PInf else NInf
  end.

(** [x > 0] on a column: false on NaN. *)
Definition gt0 (x : float) : bool :=
  match x with
  | Fin q => is_pos q
  | PInf => true
  | NInf | NaN => false
  end.

Definition isna (x : float) : bool :=
  match x with NaN => true | _ => false end.

Definition is_inf (x : float) : bool :=
  match x with PInf | NInf => true | _ => false end.

(** Equality of values: [Qeq] on the finite ones. *)
Definition eqv (x y : float) : Prop :=
  match x, y with
  | Fin a, Fin b => (a == b)%Q
  | PInf, PInf | NInf, NInf | NaN, NaN => True
  | _, _ => False
  end.


End Float.

Infix "≈" := Float.eqv (at level 70, no associativity).

(** ** Characters and strings *)

Module Str.

Definition code (c : ascii) : N := N_of_ascii c.

(** [\d] and [str.isdigit] on code points below 256. *)
Definition is_digit (c : ascii) : bool :=
  ((48 <=? code c) && (code c <=? 57))%N.

Definition digit_val (c : ascii) : Z := Z.of_N (code c) - 48.

(** [\s] and [str.isspace] on code points below 256: tab, line feed,
    vertical tab, form feed, carriage return, the separators 28..31, space,
    next line (133) and no-break space (160). *)
Definition is_space (c : ascii) : bool :=
  let n := code c in
  (((9 <=? n) && (n <=? 13)) || ((28 <=? n) && (n <=? 32))
   || (n =? 133) || (n =? 160))%N.

(** [str.lower] on one code point below 256: A..Z and the accented capitals
    192..222 (but not the multiplication sign 215) move up by 32. *)
Definition lower_char (c : ascii) : ascii :=
  let n := code c in
  if (((65 <=? n) && (n <=? 90))
      || ((192 <=? n) && (n <=? 222) && negb (n =? 215)))%N
  then ascii_of_N (n + 32) else c.

Fixpoint lower (s : string) : string :=
  match s with
  | EmptyString => EmptyString
  | String c s' => String (lower_char c) (lower s')
  end.

(** [sub in s] *)
Fixpoint contains (sub s : string) : bool :=
  String.prefix sub s ||
  match s with
  | EmptyString => false
  | String _ s' => contains sub s'
  end.

Fixpoint lstrip (s : string) : string :=
  match s with
  | EmptyString => EmptyString
  | String c s' => if is_space c then lstrip s' else s
  end.

Definition rstrip (s : string) : string :=
  String.rev (lstrip (String.rev s)).

(** [s.strip()] *)
Definition strip (s : string) : string := rstrip (lstrip s).

(** [re.sub(r"\s+", " ", s)]: every maximal run of white space becomes one
    space.  [in_run] says that the previous character was white space. *)
Fixpoint collapse_ws (in_run : bool) (s : string) : string :=
  match s with
  | EmptyString => EmptyString
  | String c s' =>
      if is_space c
      then (if in_run then collapse_ws true s'
            else String " " (collapse_ws true s'))
      else String c (collapse_ws false s')
  end.

Definition ends_with (suffix s : string) : bool :=
  String.prefix (String.rev suffix) (String.rev s).

End Str.

(** ** Year resolver *)

(** [re.match(r"(20\d{2})", s)] followed by [int(m.group(1))]: the pattern at
    the start of [s]. *)
Definition year_at (s : string) : option Z :=
  match s with
  | String "2" (String "0" (String d1 (String d2 _))) =>
      if Str.is_digit d1 && Str.is_digit d2
      then Some (2000 + 10 * Str.digit_val d1 + Str.digit_val d2)
      else None
  | _ => None
  end.

(** [re.search(r"(20\d{2})", s)]: the leftmost match. *)
Fixpoint search_year (s : string) : option Z :=
  match year_at s with
  | Some y => Some y
  | None =>
      match s with
      | EmptyString => None
      | String _ s' => search_year s'
      end
  end.

(** [Path(path).name] for a path that ends in a file name, as the paths
    that [glob] yields do: what follows the last slash.  (pathlib also drops
    a trailing slash and [.] components; such a path has neither.) *)
Fixpoint path_name_go (cur : string) (s : string) : string :=
  match s with
  | EmptyString => String.rev cur
  | String c s' =>
      if Ascii.eqb c "/" then path_name_go EmptyString s'
      else path_name_go (String c cur) s'
  end.

Definition path_name (path : string) : string := path_name_go EmptyString path.

Definition detect_year_from_filename (path : string) : option Z :=
  search_year (path_name path).

Fixpoint detect_year_from_columns (cols : list string) : option Z :=
  match cols with
  | [] => None
  | c :: cols' =>
      match search_year c with
      | Some y => Some y
      | None => detect_year_from_columns cols'
      end
  end.

(** Python's [a or b] on two optional integers: [a] when it is truthy
    (neither [None] nor [0]), else [b]. *)
Definition py_or (a b : option Z) : option Z :=
  match a with
  | Some y => if y =? 0 then b else a
  | None => b
  end.

(** ** Column resolver *)

Definition _clean_colname (c : string) : string :=
  Str.strip (Str.collapse_ws false c).

Fixpoint find_col (key : string) (cols : list string) : option string :=
  match cols with
  | [] => None
  | c :: cols' =>
      if Str.contains key (Str.lower c) then Some c else find_col key cols'
  end.

Definition pick_brand_col (cols : list string) : option string :=
  match find_col "brand" cols with
  | Some c => Some c
  | None => cols !! 0%nat
  end.

Definition pick_retail_col (cols : list string) : option string :=
  match find_col "retail" cols with
  | Some c => Some c
  | None => if decide (1 < length cols)%nat then cols !! 1%nat else None
  end.

(** ** Tables *)

(** A cell of a table as [pd.read_csv] returns it: text, a number, or a
    missing value (NaN). *)
Inductive cell : Type :=
  | CStr (s : string)
  | CNum (q : Q)
  | CNaN.

(** A [DataFrame] as read from a file: the column labels in order and the
    rows, each a list of cells in column order.  A row that is shorter than
    the header has missing values at its end, as [read_csv] pads it. *)
Record DataFrame : Type := mkDataFrame {
  columns : list string;
  rows : list (list cell)
}.

(** A record of the unified dataset: the columns [Year], [Brand], [Retail].
    A quantity is a finite number, held as an exact rational, and sums and
    quotients of quantities are exact.  The column of the script holds int64
    or float64 numbers: its sums wrap or round, and it can hold the
    infinities that [pd.to_numeric] reads from the texts [inf] and [-inf].
    The script and this development agree on the datasets that
    [exact_quantities] describes, up to the rounding of a quotient; a
    property that bounds a sum or a quotient, or says that it is finite, is
    stated for those datasets only. *)
Record record : Type := mkRecord {
  Year : Z;
  Brand : string;
  Retail : Q
}.

Inductive exn : Type :=
  | KeyError
  | AttributeError
  | TypeError
  | EmptyDataError        (* [pd.read_csv] on a file without columns *)
  | ParserError           (* [pd.read_csv] on text it cannot tokenise *)
  | UnicodeDecodeError.   (* [pd.read_csv] on bytes that are not UTF-8 *)

Inductive result (A : Type) : Type :=
  | Ok (a : A)
  | Raise (e : exn).
Arguments Ok {A} a.
Arguments Raise {A} e.

Global Instance result_ret : MRet result := λ A a, Ok a.
Global Instance result_bind : MBind result := λ A B k m,
  match m with
  | Ok a => k a
  | Raise e => Raise e
  end.

(** A file as [pd.read_csv] finds it: the table that it returns, or the
    exception that it raises. *)
Inductive csv_file : Type :=
  | Parsed (raw : DataFrame)
  | Unreadable (e : exn).

(** [pd.read_csv(path)], the first line of [load_one_csv]. *)
Definition read_csv (file : csv_file) : result DataFrame :=
  match file with
  | Parsed raw => Ok raw
  | Unreadable e => Raise e
  end.

(** [load_one_csv] after [pd.read_csv] has returned [raw]: the column labels
    are cleaned. *)
Definition load_one_csv (raw : DataFrame) : DataFrame :=
  {| columns := _clean_colname <$> columns raw; rows := rows raw |}.

(** A stable sort: [x] is put before the first element that it is [le] to. *)
Section StableSort.
Context {A : Type} (le : A → A → bool).

Fixpoint insert_sorted (x : A) (l : list A) : list A :=
  match l with
  | [] => [x]
  | y :: l' => if le x y then x :: l else y :: insert_sorted x l'
  end.

Definition stable_sort (l : list A) : list A := foldr insert_sorted [] l.
End StableSort.

(** A folder: its files by name, each with what [pd.read_csv] does on it. *)
Abbreviation folder := (list (string * csv_file)).

Section Normalizer.

(** [pd.to_numeric(..., errors="coerce")] on one text cell: its number, or
    [None] for NaN.  The grammar of numbers that pandas reads is not
    modelled: the development holds for every such function. *)
Variable to_numeric_str : string → option Q.

(** [str(x)] of a numeric cell, likewise left open. *)
Variable str_of_num : Q → string.

(** What [Series.astype(str)] makes of a missing value: the text [nan] in
    pandas 1 and 2 ([Some "nan"]), a value that is still missing in pandas 3
    ([None]).  The repository pins no version, so this is left open as well:
    the development holds for both. *)
Variable astype_str_na : option string.

(** [Series.astype(str)] on one cell; [None] is a missing value. *)
Definition astype_str (c : cell) : option string :=
  match c with
  | CStr s => Some s
  | CNum q => Some (str_of_num q)
  | CNaN => astype_str_na
  end.

(** [pd.to_numeric(..., errors="coerce")] on one cell; [None] is NaN.  The
    finite numbers only: see [record]. *)
Definition to_numeric (c : cell) : option Q :=
  match c with
  | CStr s => to_numeric_str s
  | CNum q => Some q
  | CNaN => None
  end.

(** The position of the first column labelled [c], and the number of columns
    that carry the label. *)
Definition col_index (c : string) (cols : list string) : option nat :=
  match list_find (λ c', c' = c) cols with
  | Some (i, _) => Some i
  | None => None
  end.

Definition count_label (c : string) (cols : list string) : nat :=
  length (filter (λ c', c' = c) cols).

(** [df[[brand_col, retail_col]]] with the rename and the two column reads
    that follow it.  It raises
    - [KeyError] when a picked label is [None], and when both picks are the
      same label (the rename then leaves no column [Brand]);
    - [AttributeError] when several columns carry the brand label
      ([out["Brand"]] is then a frame, which has no [.str]);
    - [TypeError] when several columns carry the retail label
      ([pd.to_numeric] refuses a frame). *)
Definition select_columns (cols : list string)
    (brand_col retail_col : option string) : result (nat * nat) :=
  match brand_col, retail_col with
  | Some b, Some r =>
      match col_index b cols, col_index r cols with
      | Some i, Some j =>
          if decide (b = r) then Raise KeyError
          else if decide (count_label b cols = 1%nat) then
            if decide (count_label r cols = 1%nat) then Ok (i, j)
            else Raise TypeError
          else Raise AttributeError
      | _, _ => Raise KeyError
      end
  | _, _ => Raise KeyError
  end.

(** One row of [out] before [dropna]: the brand text, stripped ([.str.strip]
    leaves a missing value missing), and the coerced quantity. *)
Definition out_row (i j : nat) (r : list cell) : option string * option Q :=
  (Str.strip <$> astype_str (default CNaN (r !! i)),
   to_numeric (default CNaN (r !! j))).

(** [dropna(subset=["Brand", "Retail"])] and the stamp of the year. *)
Definition dropna_row (year : Z) (o : option string * option Q)
    : option record :=
  match o with
  | (Some b, Some q) => Some {| Year := year; Brand := b; Retail := q |}
  | _ => None
  end.

Definition to_long (df : DataFrame) (year : Z) : result (list record) :=
  let cols := columns df in
  let brand_col := pick_brand_col cols in
  let retail_col := pick_retail_col cols in
  '(i, j) ← select_columns cols brand_col retail_col;
  mret (omap (λ r, dropna_row year (out_row i j r)) (rows df)).

(** *** Dataset merger *)

(** [sorted(folder.glob("*" + suffix))] *)
Definition glob_sorted (suffix : string) (fs : folder) : folder :=
  stable_sort (λ f g, bool_decide (f.1 ≤ g.1)%string)
    (filter (λ f, Str.ends_with suffix f.1 = true) fs).

Definition candidate_files (fs : folder) : folder :=
  match glob_sorted "_data.csv" fs with
  | [] => glob_sorted ".csv" fs
  | files => files
  end.

(** The year of one file: the file name first, then the cleaned headers. *)
Definition resolve_year (dir : string) (f : string * DataFrame) : option Z :=
  py_or (detect_year_from_filename (dir +:+ "/" +:+ f.1))
        (detect_year_from_columns (columns (load_one_csv f.2))).

(** The loop of [load_dataset_from_folder]: [parts] and [used] in order.
    Every file is read before its year is looked at, so a file that
    [pd.read_csv] cannot read stops the loop whatever its name. *)
Fixpoint load_loop (dir : string) (files : folder)
    : result (list (list record) * list string) :=
  match files with
  | [] => Ok ([], [])
  | f :: files' =>
      raw ← read_csv f.2;
      match resolve_year dir (f.1, raw) with
      | None => load_loop dir files'
      | Some year =>
          part ← to_long (load_one_csv raw) year;
          '(parts, used) ← load_loop dir files';
          mret (part :: parts, f.1 :: used)
      end
  end.

(** The order of [sort_values(["Year", "Retail"], ascending=[True, False])]. *)
Definition year_asc_retail_desc (r1 r2 : record) : bool :=
  (Year r1 <? Year r2)
  || ((Year r1 =? Year r2) && Qle_bool (Retail r2) (Retail r1)).

Definition load_dataset_from_folder (dir : string) (fs : folder)
    : result (list record * list string) :=
  '(parts, used) ← load_loop dir (candidate_files fs);
  match parts with
  | [] => mret ([], [])
  | _ => mret (stable_sort year_asc_retail_desc (concat parts), used)
  end.

End Normalizer.

(** ** Filters and derived metrics (the body of the script) *)

(** [Series.unique()]: first occurrences, in order. *)
Fixpoint unique {A : Type} `{EqDecision A} (l : list A) : list A :=
  match l with
  | [] => []
  | x :: l' => x :: filter (λ y, y ≠ x) (unique l')
  end.

Inductive brand_mode : Type :=
  | TopPerYear      (* "Top (per tahun)" *)
  | ManualBrands.   (* "Manual pilih brand" *)

(** The state of the sidebar controls that the filters read. *)
Record controls : Type := mkControls {
  selected_years : list Z;
  topn : nat;
  mode : brand_mode;
  manual_brands : list string
}.

(** A row of [df_f] once the derived columns are attached. *)
Record vrow : Type := mkVrow {
  base : record;
  TotalYear : float;
  Share : float;
  YoY_Change : float;
  YoY_Growth : float
}.

(** [sorted(df["Year"].unique().tolist())] *)
Definition years (df : list record) : list Z :=
  stable_sort Z.leb (unique (Year <$> df)).

Definition in_year (y : Z) (df : list record) : list record :=
  filter (λ r, Year r = y) df.

(** [x.nlargest(n, "Retail")]: the first [n] rows by quantity, largest first,
    ties in the order of the frame. *)
Definition nlargest (n : nat) (g : list record) : list record :=
  take n (stable_sort (λ r1 r2, Qle_bool (Retail r2) (Retail r1)) g).

(** [df_f.groupby("Year", group_keys=False).apply(lambda x:
    x.nlargest(topn, "Retail"))["Brand"].unique().tolist()] *)
Definition top_brands (n : nat) (df_f : list record) : list string :=
  unique (Brand <$> (years df_f ≫= λ y, nlargest n (in_year y df_f))).

Definition isin {A : Type} `{EqDecision A} (xs : list A) (x : A) : bool :=
  bool_decide (x ∈ xs).

(** Lines 164 to 176: the year filter, then the brand filter. *)
Definition apply_filters (df : list record) (c : controls) : list record :=
  let df_f := filter (λ r, isin (selected_years c) (Year r) = true) df in
  match mode c with
  | TopPerYear =>
      let tb := top_brands (topn c) df_f in
      filter (λ r, isin tb (Brand r) = true) df_f
  | ManualBrands =>
      match manual_brands c with
      | [] => df_f
      | mb => filter (λ r, isin mb (Brand r) = true) df_f
      end
  end.

(** [groupby(key)["Retail"].sum()]: the quantities of a group are added in
    row order.  The sum is exact: see [record]. *)
Definition group_sum {K : Type} `{Countable K} (key : record → K)
    (df : list record) : gmap K Q :=
  foldl (λ m r, <[key r := (default 0 (m !! key r) + Retail r)%Q]> m) ∅ df.

Definition total_by_year (df_f : list record) : gmap Z Q :=
  group_sum Year df_f.

Definition opt_float (o : option Q) : float :=
  match o with
  | Some q => Fin q
  | None => NaN
  end.

(** The second argument of [np.where] at line 183, on one row:
    [(df_f["Retail"] / df_f["TotalYear"]) * 100].  It is an argument of a
    call, so it is evaluated on every row, rows with a zero total included,
    before [np.where] picks from it. *)
Definition share_quotient (t : float) (r : record) : float :=
  Float.mul (Float.div (Fin (Retail r)) t) (Fin 100).

(** Lines 181 to 186: the left merge with the totals, [Share] through
    [np.where] (both branches are computed for every row, then one is picked),
    and the two YoY columns set to NaN. *)
Definition with_share (df_f : list record) : list vrow :=
  let totals := total_by_year df_f in
  (λ r,
     let t := opt_float (totals !! Year r) in
     let ratio := share_quotient t r in
     {| base := r;
        TotalYear := t;
        Share := if Float.gt0 t then ratio else NaN;
        YoY_Change := NaN;
        YoY_Growth := NaN |}) <$> df_f.

(** [df.pivot_table(index="Brand", columns="Year", values="Retail",
    aggfunc="sum")]: the cells that have a row; every other cell is NaN. *)
Record pivot : Type := mkPivot {
  pivot_index : list string;
  pivot_columns : list Z;
  pivot_cells : gmap (string * Z) Q
}.

Definition pivot_table (df : list record) : pivot :=
  {| pivot_index := unique (Brand <$> df);
     pivot_columns := years df;
     pivot_cells := group_sum (λ r, (Brand r, Year r)) df |}.

(** [pivot_all[y]]: a column as a [Series] indexed by brand. *)
Definition pivot_col (p : pivot) (y : Z) : gmap string float :=
  list_to_map ((λ b, (b, opt_float (pivot_cells p !! (b, y)))) <$> pivot_index p).

(** [s.map(series)] at one brand: NaN for a brand that is not in the index. *)
Definition series_map (s : gmap string float) (b : string) : float :=
  default NaN (s !! b).

(** One turn of the loop of lines 190 to 197. *)
Definition yoy_step (p : pivot) (view : list vrow) (y : Z) : list vrow :=
  let prev := y - 1 in
  if isin (pivot_columns p) prev && isin (pivot_columns p) y then
    let change := map_zip_with Float.sub (pivot_col p y) (pivot_col p prev) in
    let growth :=
      (λ x, Float.mul x (Fin 100))
        <$> map_zip_with Float.div change (pivot_col p prev) in
    (λ v,
       if decide (Year (base v) = y) then
         {| base := base v; TotalYear := TotalYear v; Share := Share v;
            YoY_Change := series_map change (Brand (base v));
            YoY_Growth := series_map growth (Brand (base v)) |}
       else v) <$> view
  else view.

(** Lines 188 to 197. *)
Definition with_yoy (df : list record) (view : list vrow) : list vrow :=
  let ys := years df in
  if decide (2 ≤ length ys)%nat then
    foldl (yoy_step (pivot_table df)) view (drop 1 ys)
  else view.

(** [df_f] as the script has it after line 197, from the unified dataset and
    the controls. *)
Definition filtered_view (df : list record) (c : controls) : list vrow :=
  with_yoy df (with_share (apply_filters df c)).

(** ** The derived metrics as the specification words them *)

(** The sum of the quantities of the rows that [sel] selects, in row order. *)
Definition sum_where (sel : record → Prop) `{∀ r, Decision (sel r)}
    (df : list record) : Q :=
  foldl Qplus 0%Q (Retail <$> filter sel df).

(** [YearAggregate]: the total quantity of a year. *)
Definition year_total (df : list record) (y : Z) : Q :=
  sum_where (λ r, Year r = y) df.

(** A cell of the brand by year pivot: the sum of the brand's quantities in
    that year, and NaN when the brand has no row in that year. *)
Definition pivot_value (df : list record) (b : string) (y : Z) : float :=
  if decide ((b, y) ∈ (λ r, (Brand r, Year r)) <$> df)
  then Fin (sum_where (λ r, (Brand r, Year r) = (b, y)) df)
  else NaN.

(** [deriveYoY]: for a year [y] such that [y - 1] is a year of the pivot,
    [Change = pivot[y] - pivot[y-1]] and [GrowthPct = Change / pivot[y-1] * 100];
    no value for any other year.  The dataset is the only input. *)
Definition deriveYoY (df : list record) (b : string) (y : Z) : float * float :=
  if decide (y - 1 ∈ Year <$> df) then
    let change := Float.sub (pivot_value df b y) (pivot_value df b (y - 1)) in
    (change,
     Float.mul (Float.div change (pivot_value df b (y - 1))) (Fin 100))
  else (NaN, NaN).

(** ** The KPI row (lines 220 to 227) *)

(** [df.groupby("Year")["Retail"].sum().sort_index()], read with [.get]. *)
Definition market_by_year (df : list record) : gmap Z Q := group_sum Year df.

(** [pd.notna(x)] *)
Definition notna (x : float) : bool := negb (Float.isna x).

(** [x != 0] on a scalar: true on NaN and on the infinities. *)
Definition ne0 (x : float) : bool :=
  match x with
  | Fin q => negb (Float.is_zero q)
  | _ => true
  end.

Definition total_kpi (df : list record) (kpi_year : Z) : float :=
  opt_float (market_by_year df !! kpi_year).

Definition total_prev (df : list record) (kpi_year : Z) : float :=
  opt_float (market_by_year df !! (kpi_year - 1)).

Definition market_change (df : list record) (kpi_year : Z) : float :=
  if notna (total_kpi df kpi_year) && notna (total_prev df kpi_year)
  then Float.sub (total_kpi df kpi_year) (total_prev df kpi_year)
  else NaN.

Definition market_growth (df : list record) (kpi_year : Z) : float :=
  if notna (market_change df kpi_year) && notna (total_prev df kpi_year)
     && ne0 (total_prev df kpi_year)
  then Float.mul
         (Float.div (market_change df kpi_year) (total_prev df kpi_year))
         (Fin 100)
  else NaN.

(** ** The brands eligible as "fastest growing" (lines 308 to 322) *)

Definition MIN_BASE_UNITS : Q := 1000.

(** A row of [eligible]: the columns [Brand], [YoY_Growth], [YoY_Change],
    [Base]. *)
Record eligible_row : Type := mkEligible {
  e_Brand : string;
  e_YoY_Growth : float;
  e_YoY_Change : float;
  e_Base : float
}.

(** [x >= q] on a column: false on NaN. *)
Definition float_ge (x : float) (q : Q) : bool :=
  match x with
  | Fin a => Qle_bool q a
  | PInf => true
  | NInf | NaN => false
  end.

(** The index of a pivot table in its own order (the brands, sorted). *)
Definition sorted_index (p : pivot) : list string :=
  stable_sort (λ b1 b2, bool_decide (b1 ≤ b2)%string) (pivot_index p).

(** The rows of [eligible] before the closing [sort_values("YoY_Growth",
    ascending=False)], which orders them (ties in an order that pandas leaves
    open); [None] when the KPI year or the year before it is not a column of
    the pivot. *)
Definition eligible (df : list record) (kpi_year : Z)
    : option (list eligible_row) :=
  let prev_df := pivot_table df in
  let prev_year := kpi_year - 1 in
  if isin (pivot_columns prev_df) prev_year
     && isin (pivot_columns prev_df) kpi_year
  then
    let base := pivot_col prev_df prev_year in
    let curr := pivot_col prev_df kpi_year in
    let yoy_growth :=
      (λ x, Float.mul x (Fin 100))
        <$> map_zip_with Float.div (map_zip_with Float.sub curr base) base in
    let yoy_change := map_zip_with Float.sub curr base in
    let frame :=
      (λ b, {| e_Brand := b;
               e_YoY_Growth := series_map yoy_growth b;
               e_YoY_Change := series_map yoy_change b;
               e_Base := series_map base b |}) <$> sorted_index prev_df in
    let dropped :=
      filter (λ e, Float.isna (e_YoY_Growth e) = false
                   ∧ Float.isna (e_YoY_Change e) = false
                   ∧ Float.isna (e_Base e) = false) frame in
    Some (filter (λ e, float_ge (e_Base e) MIN_BASE_UNITS = true) dropped)
  else None.

(** ** The heat map of the export, normalised per brand (lines 567 to 579) *)

(** One row of [hm]: the brand's cell in every year of [df_f], in ascending
    year order, with 0 where the brand has no record ([fill_value=0]). *)
Definition hm_row (df_f : list record) (b : string) : list Q :=
  (λ y, default 0%Q (group_sum (λ r, (Brand r, Year r)) df_f !! (b, y)))
    <$> years df_f.

Definition Qmaxb (a b : Q) : Q := if Qle_bool a b then b else a.

(** [hm.max(axis=1)] on one row, then [.replace(0, np.nan)]. *)
Definition hm_denom (row : list Q) : float :=
  match row with
  | [] => NaN
  | x :: row' =>
      let m := foldl Qmaxb x row' in
      if Float.is_zero m then NaN else Fin m
  end.

(** [fillna(0)] on one cell. *)
Definition fillna0 (x : float) : float :=
  match x with
  | NaN => Fin 0
  | _ => x
  end.

(** One row of [hm.div(denom, axis=0).fillna(0)], the frame that is then
    raised to the power one half. *)
Definition hm_normalized_row (df_f : list record) (b : string) : list float :=
  let row := hm_row df_f b in
  (λ x, fillna0 (Float.div (Fin x) (hm_denom row))) <$> row.

(** ** Notions used in the statements *)

(** White space in [s] is made of single spaces only: no white-space
    character other than the space, and no two spaces in a row
    ([after_space] says that a space comes just before [s]). *)
Fixpoint single_spaced (after_space : bool) (s : string) : bool :=
  match s with
  | EmptyString => true
  | String c s' =>
      if Str.is_space c
      then Ascii.eqb c " " && negb after_space && single_spaced true s'
      else single_spaced false s'
  end.

(** The first and the last character of a string, if any. *)
Definition first_char (s : string) : option ascii :=
  match s with
  | EmptyString => None
  | String c _ => Some c
  end.

Definition last_char (s : string) : option ascii := first_char (String.rev s).

(** No white space at either end. *)
Definition trimmed (s : string) : Prop :=
  (∀ c, first_char s = Some c → Str.is_space c = false)
  ∧ (∀ c, last_char s = Some c → Str.is_space c = false).

(** The order of the merged dataset: the year ascending, then the quantity
    descending. *)
Definition merged_order (r1 r2 : record) : Prop :=
  Year r1 < Year r2 ∨ (Year r1 = Year r2 ∧ (Retail r2 <= Retail r1)%Q).

(** The years that the pattern [20\d\d] can denote. *)
Definition this_century (y : Z) : Prop := 2000 ≤ y ≤ 2099.

(** The order that a boolean comparison decides. *)
Definition le_rel {A : Type} (le : A → A → bool) : relation A :=
  λ x y, le x y = true.

(** A quantity that is a whole number of units. *)
Definition whole (q : Q) : Prop := ∃ n : Z, (q == inject_Z n)%Q.

(** The sum of the magnitudes of the quantities of a dataset. *)
Definition magnitude (df : list record) : Q :=
  foldr (λ r s, Qabs (Retail r) + s)%Q 0%Q df.

(** The datasets whose magnitudes add up to at most [2 ^ 53].  Every sum of
    quantities of such a dataset, and every partial sum on the way, lies
    within [± 2 ^ 53]: an int64 sum does not wrap, a float64 sum does not
    overflow, and an int64 quantity or sum is the same number as a
    float64. *)
Definition in_range (df : list record) : Prop :=
  (magnitude df <= inject_Z (2 ^ 53))%Q.

(** The datasets on which the arithmetic of the script is the arithmetic of
    this development: every quantity is a whole number and the dataset is
    [in_range].  Every sum of quantities, and every partial sum on the way,
    is then a whole number within [± 2 ^ 53], which int64 and float64 both
    hold exactly.  A quotient of two such sums by a divisor other than zero
    has a divisor of magnitude at least 1, so it is finite in float64 as
    well, and differs from the exact quotient by its rounding only. *)
Definition exact_quantities (df : list record) : Prop :=
  Forall (λ r, whole (Retail r)) df ∧ in_range df.

(** A file that [pd.read_csv] can read. *)
Definition readable (f : string * csv_file) : Prop :=
  ∃ raw, f.2 = Parsed raw.

(** The files that can be read, each with its table. *)
Definition tables (fs : folder) : list (string * DataFrame) :=
  omap (λ f, match f.2 with
             | Parsed raw => Some (f.1, raw)
             | Unreadable _ => None
             end) fs.

(** A file of the folder that reads as the given table. *)
Definition on_disk (f : string * DataFrame) : string * csv_file :=
  (f.1, Parsed f.2).

(** The files of the merge for which a year is resolved, in merge order. *)
Definition files_with_year (dir : string) (fs : folder) : list string :=
  (filter (λ f, is_Some (resolve_year dir f)) (tables (candidate_files fs))).*1.

(** What the loop of lines 190 to 197 does to one row in the turn of year [y]
    (see [yoy_step_fmap]). *)
Definition yoy_row (p : pivot) (v : vrow) (y : Z) : vrow :=
  if isin (pivot_columns p) (y - 1) && isin (pivot_columns p) y then
    let change := map_zip_with Float.sub (pivot_col p y) (pivot_col p (y - 1)) in
    let growth :=
      (λ x, Float.mul x (Fin 100))
        <$> map_zip_with Float.div change (pivot_col p (y - 1)) in
    if decide (Year (base v) = y) then
      {| base := base v; TotalYear := TotalYear v; Share := Share v;
         YoY_Change := series_map change (Brand (base v));
         YoY_Growth := series_map growth (Brand (base v)) |}
    else v
  else v.

(** The row of [with_share] for one record. *)
Definition share_row (totals : gmap Z Q) (r : record) : vrow :=
  let t := opt_float (totals !! Year r) in
  {| base := r;
     TotalYear := t;
     Share := if Float.gt0 t
              then Float.mul (Float.div (Fin (Retail r)) t) (Fin 100)
              else NaN;
     YoY_Change := NaN;
     YoY_Growth := NaN |}.

(** ** Sample instance and data for the worked examples *)

Module Sample.

(** Text made of one or more decimal digits reads as that integer and any
    other text as NaN; a number prints as the decimal of its integer part (no
    brand cell of the examples is a number). *)
Fixpoint read_digits (acc : Z) (s : string) : option Z :=
  match s with
  | EmptyString => Some acc
  | String c s' =>
      if Str.is_digit c then read_digits (10 * acc + Str.digit_val c) s'
      else None
  end.

Definition to_numeric_str (s : string) : option Q :=
  match s with
  | EmptyString => None
  | _ => inject_Z <$> read_digits 0 s
  end.

Definition str_of_num (q : Q) : string :=
  NilZero.string_of_int (Z.to_int (Qnum q / Zpos (Qden q))).

(** pandas 1 and 2 (no brand cell of the examples is missing). *)
Definition astype_str_na : option string := Some "nan".

Definition to_long := to_long to_numeric_str str_of_num astype_str_na.
Definition load_dataset_from_folder :=
  load_dataset_from_folder to_numeric_str str_of_num astype_str_na.

(** Two yearly files, as in the scenario of the specification. *)
Definition file_2020 : string * DataFrame :=
  ("2020_data.csv",
   {| columns := ["Brand"; "Retail"];
      rows := [[CStr "Toyota"; CNum 1000]; [CStr "Honda"; CNum 500]] |}).

Definition file_2021 : string * DataFrame :=
  ("2021_data.csv",
   {| columns := ["Brand"; "Retail"];
      rows := [[CStr "Toyota"; CNum 1200]; [CStr "Honda"; CNum 400]] |}).

(** A file whose name has a year and whose quantities are all invalid. *)
Definition file_2019 : string * DataFrame :=
  ("2019_data.csv",
   {| columns := ["Brand"; "Retail"];
      rows := [[CStr "Toyota"; CStr "unknown"]; [CStr "Honda"; CNaN]] |}).

(** A file with a single column. *)
Definition file_one_column : string * DataFrame :=
  ("2020_data.csv",
   {| columns := ["Brand"]; rows := [[CStr "Toyota"]; [CStr "Honda"]] |}).

(** A file whose name and headers hold no year. *)
Definition file_no_year : string * DataFrame :=
  ("notes.csv",
   {| columns := ["Brand"; "Units"]; rows := [[CStr "Toyota"; CNum 7]] |}).

(** A table with a brand cell of white space only. *)
Definition table_blank_brand : DataFrame :=
  {| columns := ["Brand"; "Retail"];
     rows := [[CStr "Toyota"; CNum 1000]; [CStr "   "; CNum 500]] |}.

Definition dataset : list record :=
  [ {| Year := 2020; Brand := "Toyota"; Retail := 1000 |};
    {| Year := 2020; Brand := "Honda"; Retail := 500 |};
    {| Year := 2021; Brand := "Toyota"; Retail := 1200 |};
    {| Year := 2021; Brand := "Honda"; Retail := 400 |} ].

(** A brand that sold nothing in 2020 and five units in 2021. *)
Definition dataset_zero_base : list record :=
  [ {| Year := 2020; Brand := "Toyota"; Retail := 1000 |};
    {| Year := 2020; Brand := "Esemka"; Retail := 0 |};
    {| Year := 2021; Brand := "Toyota"; Retail := 1200 |};
    {| Year := 2021; Brand := "Esemka"; Retail := 5 |} ].

(** Every year selected, manual mode, no brand picked. *)
Definition manual_none : controls :=
  {| selected_years := [2020; 2021]; topn := 5; mode := ManualBrands;
     manual_brands := [] |}.

Definition top_1 : controls :=
  {| selected_years := [2020; 2021]; topn := 1; mode := TopPerYear;
     manual_brands := [] |}.

Definition honda_2020 : record :=
  {| Year := 2020; Brand := "Honda"; Retail := 500 |}.

(** The row of Toyota in 2021 as the view of [top_1] has it. *)
Definition row_toyota_2021 : vrow :=
  {| base := {| Year := 2021; Brand := "Toyota"; Retail := 1200 |};
     TotalYear := Fin 1200;
     Share := Fin (120000 # 1200);
     YoY_Change := Fin 200;
     YoY_Growth := Fin (20000 # 1000) |}.

End Sample.

(** More sample values, for the further properties. *)
Module Extra.

Definition to_numeric := to_numeric Sample.to_numeric_str.
Definition astype_str := astype_str Sample.str_of_num Sample.astype_str_na.

(** Top five per year, every year selected. *)
Definition top_5 : controls :=
  {| selected_years := [2020; 2021]; topn := 5; mode := TopPerYear;
     manual_brands := [] |}.

(** The row of Toyota in 2020 as the view of [Sample.top_1] has it. *)
Definition row_toyota_2020 : vrow :=
  {| base := {| Year := 2020; Brand := "Toyota"; Retail := 1000 |};
     TotalYear := Fin 1000;
     Share := Fin (100000 # 1000);
     YoY_Change := NaN;
     YoY_Growth := NaN |}.

(** The only row of [eligible] for the sample dataset and the KPI year 2021:
    Honda's base of 500 units is below the threshold. *)
Definition eligible_toyota : eligible_row :=
  {| e_Brand := "Toyota";
     e_YoY_Growth := Fin (20000 # 1000);
     e_YoY_Change := Fin 200;
     e_Base := Fin 1000 |}.

(** A year in which sales and returns cancel, and a year without sales. *)
Definition dataset_zero_totals : list record :=
  [ {| Year := 2020; Brand := "Toyota"; Retail := 5 |};
    {| Year := 2020; Brand := "Honda"; Retail := - 5 |};
    {| Year := 2021; Brand := "Esemka"; Retail := 0 |} ].

Definition folder_2020_2021 : folder :=
  on_disk <$> [Sample.file_2021; Sample.file_2020].

(** A folder with the two yearly files and an empty file without a year. *)
Definition folder_with_empty_file : folder :=
  [on_disk Sample.file_2021; ("stock_data.csv", Unreadable EmptyDataError);
   on_disk Sample.file_2020].

End Extra.

(** * Properties *)

(** ** The year resolver only yields years of this century *)

Lemma digit_val_range c :
  Str.is_digit c = true → 0 ≤ Str.digit_val c ≤ 9.
Proof.
  unfold Str.is_digit, Str.digit_val.
  intros [H1 H2]%andb_prop.
  apply N.leb_le in H1, H2. lia.
Qed.

Lemma year_at_range s y : year_at s = Some y → this_century y.
Proof.
  unfold year_at, this_century. intros H.
  repeat case_match; simplify_eq.
  match goal with
  | Hd : _ && _ = true |- _ => apply andb_prop in Hd as [Hd1 Hd2]
  end.
  apply digit_val_range in Hd1, Hd2. lia.
Qed.

Lemma search_year_cons c s :
  search_year (String c s) =
  match year_at (String c s) with
  | Some y => Some y
  | None => search_year s
  end.
Proof. reflexivity. Qed.

Lemma search_year_range s y : search_year s = Some y → this_century y.
Proof.
  induction s as [|c s IH].
  - discriminate.
  - rewrite search_year_cons.
    destruct (year_at (String c s)) eqn:E.
    + intros [= <-]. by eapply year_at_range.
    + apply IH.
Qed.

Lemma detect_year_from_filename_range path y :
  detect_year_from_filename path = Some y → this_century y.
Proof. apply search_year_range. Qed.

Lemma detect_year_from_columns_range cols y :
  detect_year_from_columns cols = Some y → this_century y.
Proof.
  induction cols as [|c cols IH]; simpl; [discriminate|].
  destruct (search_year c) eqn:E; [|done].
  intros [= <-]. by eapply search_year_range.
Qed.

Lemma py_or_range a b y :
  (∀ z, a = Some z → this_century z) →
  (∀ z, b = Some z → this_century z) →
  py_or a b = Some y → this_century y.
Proof.
  intros Ha Hb. unfold py_or.
  destruct a as [z|]; [|by auto].
  destruct (z =? 0); intros ?; simplify_eq; auto.
Qed.

Lemma resolve_year_range dir f y :
  resolve_year dir f = Some y → this_century y.
Proof.
  apply py_or_range.
  - intros z. apply detect_year_from_filename_range.
  - intros z. apply detect_year_from_columns_range.
Qed.

(** ** The stable sort *)

Section StableSortFacts.
Context {A : Type} (le : A → A → bool).

Lemma insert_sorted_Permutation x l : insert_sorted le x l ≡ₚ x :: l.
Proof.
  induction l as [|y l IH]; simpl; [done|].
  destruct (le x y); [done|].
  rewrite IH. apply Permutation_swap.
Qed.

Lemma stable_sort_Permutation l : stable_sort le l ≡ₚ l.
Proof.
  induction l as [|x l IH]; simpl; [done|].
  by rewrite insert_sorted_Permutation, IH.
Qed.

Lemma elem_of_stable_sort x l : x ∈ stable_sort le l ↔ x ∈ l.
Proof. by rewrite stable_sort_Permutation. Qed.

Lemma length_stable_sort l : length (stable_sort le l) = length l.
Proof. by rewrite stable_sort_Permutation. Qed.

Hypothesis le_total : ∀ x y, le x y = true ∨ le y x = true.
Hypothesis le_trans : ∀ x y z, le x y = true → le y z = true → le x z = true.

Abbreviation R := (le_rel le).

Lemma insert_sorted_StronglySorted x l :
  StronglySorted R l → StronglySorted R (insert_sorted le x l).
Proof.
  induction 1 as [|y l Hl IH Hy]; simpl.
  - repeat constructor.
  - destruct (le x y) eqn:E.
    + constructor; [by constructor|].
      constructor; [done|].
      eapply Forall_impl; [exact Hy|]. intros z Hz. by eapply le_trans.
    + constructor; [done|].
      rewrite insert_sorted_Permutation. constructor; [|done].
      destruct (le_total x y); [congruence|done].
Qed.

Lemma stable_sort_StronglySorted l : StronglySorted R (stable_sort le l).
Proof.
  induction l; simpl; [constructor|by apply insert_sorted_StronglySorted].
Qed.

(** What is cut off after the first [n] sorted elements is below them. *)
Lemma stable_sort_take_drop n l x y :
  x ∈ take n (stable_sort le l) → y ∈ drop n (stable_sort le l) →
  le x y = true.
Proof.
  intros Hx Hy.
  pose proof (stable_sort_StronglySorted l) as Hs.
  rewrite <-(take_drop n (stable_sort le l)) in Hs.
  by eapply (StronglySorted_app_1_elem_of R).
Qed.
End StableSortFacts.

(** ** The normaliser and the merger *)

Lemma elem_of_concat {A} (x : A) (ls : list (list A)) :
  x ∈ concat ls ↔ ∃ l, x ∈ l ∧ l ∈ ls.
Proof.
  induction ls as [|l ls IH]; simpl.
  - split; [by intros ?%elem_of_nil|]. by intros (? & _ & ?%elem_of_nil).
  - rewrite elem_of_app, IH. split.
    + intros [?|(l' & ? & ?)]; [exists l | exists l']; by rewrite elem_of_cons; auto.
    + intros (l' & ? & [->|?]%elem_of_cons); [by left|right; by exists l'].
Qed.

Lemma result_bind_Ok {A B} (m : result A) (k : A → result B) b :
  m ≫= k = Ok b → ∃ a, m = Ok a ∧ k a = Ok b.
Proof. destruct m as [a|e]; [by exists a | discriminate]. Qed.

Lemma tables_cons_parsed n raw (fs : folder) :
  tables ((n, Parsed raw) :: fs) = (n, raw) :: tables fs.
Proof. reflexivity. Qed.

Lemma tables_cons_unreadable n e (fs : folder) :
  tables ((n, Unreadable e) :: fs) = tables fs.
Proof. reflexivity. Qed.

Lemma elem_of_tables (fs : folder) n raw :
  (n, raw) ∈ tables fs ↔ (n, Parsed raw) ∈ fs.
Proof.
  unfold tables. rewrite list_elem_of_omap. split.
  - intros ([n' [raw'|e]] & Hin & Heq); simpl in Heq; [|discriminate].
    by injection Heq as -> ->.
  - intros Hin. by exists (n, Parsed raw).
Qed.

Lemma tables_on_disk (l : list (string * DataFrame)) :
  tables (on_disk <$> l) = l.
Proof.
  induction l as [|[n raw] l IH]; [done|].
  rewrite fmap_cons. change (on_disk (n, raw)) with (n, Parsed raw).
  by rewrite tables_cons_parsed, IH.
Qed.

Lemma Forall_readable_on_disk (l : list (string * DataFrame)) :
  Forall readable (on_disk <$> l).
Proof.
  apply Forall_fmap, Forall_forall. intros [n raw] _. by exists raw.
Qed.

Section NormalizerFacts.
Context (to_numeric_str : string → option Q) (str_of_num : Q → string).
Context (astype_str_na : option string).

Abbreviation to_long := (to_long to_numeric_str str_of_num astype_str_na).
Abbreviation load_loop := (load_loop to_numeric_str str_of_num astype_str_na).
Abbreviation load_dataset_from_folder :=
  (load_dataset_from_folder to_numeric_str str_of_num astype_str_na).

Lemma to_long_year df year rs r :
  to_long df year = Ok rs → r ∈ rs → Year r = year.
Proof.
  unfold to_long. intros ([i j] & _ & [= <-])%result_bind_Ok.
  intros (row & _ & Hrow)%list_elem_of_omap.
  unfold dropna_row, out_row in Hrow.
  repeat case_match; by simplify_eq.
Qed.

Lemma load_loop_cons dir f files :
  load_loop dir (f :: files) =
  raw ← read_csv f.2;
  match resolve_year dir (f.1, raw) with
  | None => load_loop dir files
  | Some year =>
      part ← to_long (load_one_csv raw) year;
      '(parts, used) ← load_loop dir files;
      mret (part :: parts, f.1 :: used)
  end.
Proof. reflexivity. Qed.

Lemma load_loop_years dir files parts used part r :
  load_loop dir files = Ok (parts, used) →
  part ∈ parts → r ∈ part → this_century (Year r).
Proof.
  revert parts used.
  induction files as [|[n [raw|e]] files IH]; intros parts used.
  - intros [= <- <-]. by intros ?%elem_of_nil.
  - rewrite load_loop_cons. simpl.
    destruct (resolve_year dir (n, raw)) as [year|] eqn:Hy; [|by apply IH].
    intros (p & Hp & ([ps us] & Hrec & [= <- <-])%result_bind_Ok)%result_bind_Ok.
    intros [->|Hin]%elem_of_cons Hr.
    + rewrite (to_long_year _ _ _ _ Hp Hr). by eapply resolve_year_range.
    + by eapply IH.
  - discriminate.
Qed.

Lemma load_loop_used dir files parts used :
  load_loop dir files = Ok (parts, used) →
  used = (filter (λ f, is_Some (resolve_year dir f)) (tables files)).*1
  ∧ length parts = length used.
Proof.
  revert parts used.
  induction files as [|[n [raw|e]] files IH]; intros parts used.
  - by intros [= <- <-].
  - rewrite load_loop_cons, tables_cons_parsed. simpl.
    destruct (resolve_year dir (n, raw)) as [year|] eqn:Hy.
    + intros (p & Hp & ([ps us] & Hrec & [= <- <-])%result_bind_Ok)%result_bind_Ok.
      destruct (IH _ _ Hrec) as [-> Hlen].
      rewrite filter_cons, decide_True by (by rewrite Hy).
      simpl. by rewrite Hlen.
    + intros Hrec. destruct (IH _ _ Hrec) as [-> Hlen].
      rewrite filter_cons, decide_False; [done|].
      rewrite Hy. by intros [? ?].
  - discriminate.
Qed.

Lemma load_loop_no_year dir files :
  Forall readable files →
  (filter (λ f, is_Some (resolve_year dir f)) (tables files)) = [] →
  load_loop dir files = Ok ([], []).
Proof.
  induction 1 as [|[n file] files [raw Hraw] _ IH]; [done|].
  simpl in Hraw. subst file.
  rewrite load_loop_cons, tables_cons_parsed. simpl.
  destruct (resolve_year dir (n, raw)) as [year|] eqn:Hy.
  - rewrite filter_cons, decide_True by (by rewrite Hy). discriminate.
  - rewrite filter_cons, decide_False; [done|].
    rewrite Hy. by intros [? ?].
Qed.

(** The loop stops at the first candidate file that cannot be read, whether
    or not its name holds a year. *)
Lemma load_loop_unreadable dir files n e files' :
  Forall readable files →
  (∀ f y, f ∈ tables files → resolve_year dir f = Some y →
          ∃ part, to_long (load_one_csv f.2) y = Ok part) →
  load_loop dir (files ++ (n, Unreadable e) :: files') = Raise e.
Proof.
  induction 1 as [|[n0 file] files [raw Hraw] _ IH]; intros Hall; [done|].
  simpl in Hraw. subst file.
  rewrite <-app_comm_cons, load_loop_cons. simpl.
  rewrite tables_cons_parsed in Hall.
  assert (load_loop dir (files ++ (n, Unreadable e) :: files') = Raise e)
    as Hrec.
  { apply IH. intros f y Hf. apply Hall. by right. }
  destruct (resolve_year dir (n0, raw)) as [year|] eqn:Hy; [|done].
  destruct (Hall (n0, raw) year) as [part Hpart]; [by left|done|].
  simpl in Hpart. by rewrite Hpart, Hrec.
Qed.

(** C10. Every record of the merged dataset has a year from 2000 to 2099:
    the file name or a column header matched [20\d\d], and [to_long]
    stamped the rows with that year. *)
Theorem C10_merged_years_in_this_century dir fs data used r :
  load_dataset_from_folder dir fs = Ok (data, used) →
  r ∈ data →
  2000 ≤ Year r ≤ 2099.
Proof.
  unfold load_dataset_from_folder.
  intros ([parts us] & Hloop & Hret)%result_bind_Ok Hr.
  destruct parts as [|p parts].
  - injection Hret as <- <-. by apply elem_of_nil in Hr.
  - injection Hret as <- <-.
    apply elem_of_stable_sort in Hr.
    change (r ∈ concat (p :: parts)) in Hr.
    apply elem_of_concat in Hr as (part & Hr & Hpart).
    by eapply load_loop_years.
Qed.

(** C4 (as the code has it). When the merge returns, the used-files report
    lists, in merge order, exactly the files for which a year was resolved,
    whether or not they gave any valid record.  When every candidate file can
    be read by [pd.read_csv] and none resolves a year, the result is the
    empty dataset with the empty used-file list.  A candidate file that
    cannot be read makes the merge raise even when it has no year, since each
    file is read before its year is looked at: once the files before it are
    read and normalised, the merge raises the reader's exception. *)
Theorem C4_used_files_are_the_files_with_a_year dir fs :
  (∀ data used,
     load_dataset_from_folder dir fs = Ok (data, used) →
     used = files_with_year dir fs)
  ∧ (Forall readable (candidate_files fs) →
     files_with_year dir fs = [] →
     load_dataset_from_folder dir fs = Ok ([], []))
  ∧ (∀ before n e after,
       candidate_files fs = before ++ (n, Unreadable e) :: after →
       Forall readable before →
       (∀ f y, f ∈ tables before → resolve_year dir f = Some y →
               ∃ part, to_long (load_one_csv f.2) y = Ok part) →
       load_dataset_from_folder dir fs = Raise e).
Proof.
  unfold load_dataset_from_folder, files_with_year. split; [|split].
  - intros data used ([parts us] & Hloop & Hret)%result_bind_Ok.
    apply load_loop_used in Hloop as [-> Hlen].
    destruct parts as [|p parts]; injection Hret as <- <-; [|done].
    symmetry. by apply nil_length_inv.
  - intros Hread Hnone%fmap_nil_inv.
    by rewrite load_loop_no_year.
  - intros before n e after -> Hread Hall.
    by rewrite load_loop_unreadable.
Qed.

End NormalizerFacts.

(** ** Lists, sums and lookup tables *)

Lemma elem_of_unique {A} `{EqDecision A} (x : A) l : x ∈ unique l ↔ x ∈ l.
Proof.
  induction l as [|a l IH]; simpl; [done|].
  rewrite !elem_of_cons, list_elem_of_filter, IH.
  destruct (decide (x = a)); tauto.
Qed.

Lemma NoDup_unique {A} `{EqDecision A} (l : list A) : NoDup (unique l).
Proof.
  induction l as [|a l IH]; simpl; [constructor|].
  constructor.
  - rewrite list_elem_of_filter. by intros [? _].
  - by apply NoDup_filter.
Qed.

Lemma elem_of_isin {A} `{EqDecision A} (xs : list A) x :
  isin xs x = true ↔ x ∈ xs.
Proof. unfold isin. by rewrite bool_decide_eq_true. Qed.

Lemma elem_of_years y df : y ∈ years df ↔ y ∈ Year <$> df.
Proof. unfold years. by rewrite elem_of_stable_sort, elem_of_unique. Qed.

Lemma NoDup_years df : NoDup (years df).
Proof.
  unfold years. rewrite stable_sort_Permutation. apply NoDup_unique.
Qed.

Lemma StronglySorted_mono {A} (R1 R2 : relation A) l :
  (∀ x y, R1 x y → R2 x y) → StronglySorted R1 l → StronglySorted R2 l.
Proof.
  intros HR. induction 1 as [|x l Hl IH Hx]; constructor; [done|].
  eapply Forall_impl; [exact Hx|]. auto.
Qed.

Lemma years_sorted df : StronglySorted Z.le (years df).
Proof.
  unfold years.
  eapply StronglySorted_mono;
    [|apply (stable_sort_StronglySorted Z.leb)].
  - intros x y. unfold le_rel. apply Z.leb_le.
  - intros x y. destruct (Z.leb_spec x y), (Z.leb_spec y x); auto; lia.
  - intros x y z. rewrite !Z.leb_le. lia.
Qed.

(** The least year is the head of [years]: its predecessor is not a year. *)
Lemma years_head_pred y ys df :
  years df = y :: ys → y - 1 ∉ Year <$> df.
Proof.
  intros Hys. rewrite <-elem_of_years, Hys.
  pose proof (years_sorted df) as Hs. rewrite Hys in Hs.
  apply StronglySorted_inv in Hs as [_ Hall].
  rewrite Forall_forall in Hall.
  intros [?|Hin%Hall]%elem_of_cons; lia.
Qed.

Lemma group_sum_snoc {K} `{Countable K} (key : record → K) df r :
  group_sum key (df ++ [r]) =
  <[key r := (default 0 (group_sum key df !! key r) + Retail r)%Q]>
    (group_sum key df).
Proof. unfold group_sum. by rewrite foldl_app. Qed.

Lemma sum_where_snoc (sel : record → Prop) `{∀ r, Decision (sel r)} df r :
  sum_where sel (df ++ [r]) =
  if decide (sel r) then (sum_where sel df + Retail r)%Q else sum_where sel df.
Proof.
  unfold sum_where. rewrite filter_app, filter_cons, filter_nil.
  destruct (decide (sel r)).
  - by rewrite fmap_app, foldl_app.
  - by rewrite app_nil_r.
Qed.

Lemma sum_where_none (sel : record → Prop) `{∀ r, Decision (sel r)} df :
  (∀ r, r ∈ df → ¬ sel r) → sum_where sel df = 0%Q.
Proof.
  intros Hno. unfold sum_where.
  replace (filter sel df) with (@nil record); [done|].
  symmetry. induction df as [|a df IH]; [done|].
  rewrite filter_cons, decide_False by (apply Hno; left).
  apply IH. intros r Hr. apply Hno. by right.
Qed.

(** A group's entry is the sum of its rows; a key without rows has none. *)
Lemma group_sum_lookup {K} `{Countable K} (key : record → K) df k :
  group_sum key df !! k =
  if decide (k ∈ key <$> df) then Some (sum_where (λ r, key r = k) df)
  else None.
Proof.
  induction df as [|r df IH] using rev_ind.
  - rewrite decide_False by (by intros ?%elem_of_nil). done.
  - rewrite group_sum_snoc, sum_where_snoc, fmap_app, lookup_insert.
    destruct (decide (key r = k)) as [Heq|Hne].
    + subst k.
      rewrite decide_True by (rewrite elem_of_app; right; by left).
      rewrite IH. f_equal. destruct (decide (key r ∈ key <$> df)) as [|Hnot].
      * done.
      * simpl. rewrite sum_where_none; [done|].
        intros r' Hr' Heq. apply Hnot. rewrite <-Heq.
        by apply list_elem_of_fmap_2.
    + rewrite IH.
      destruct (decide (k ∈ key <$> df)) as [Hin|Hnot].
      * rewrite decide_True by (rewrite elem_of_app; by left). done.
      * rewrite decide_False; [done|].
        rewrite elem_of_app. intros [?|Hin]; [done|].
        apply list_elem_of_fmap in Hin as (r' & -> & ->%list_elem_of_singleton).
        done.
Qed.

Lemma total_by_year_lookup df_f r :
  r ∈ df_f → total_by_year df_f !! Year r = Some (year_total df_f (Year r)).
Proof.
  intros Hr. unfold total_by_year. rewrite group_sum_lookup.
  by rewrite decide_True by (by apply list_elem_of_fmap_2).
Qed.

Lemma pivot_cells_lookup df b y :
  opt_float (pivot_cells (pivot_table df) !! (b, y)) = pivot_value df b y.
Proof.
  unfold pivot_value. simpl. rewrite group_sum_lookup.
  by destruct (decide (_ ∈ _)).
Qed.

Lemma lookup_keyed_list {V} (f : string → V) (l : list string) b :
  (list_to_map ((λ b, (b, f b)) <$> l) : gmap string V) !! b =
  if decide (b ∈ l) then Some (f b) else None.
Proof.
  induction l as [|a l IH].
  - rewrite decide_False by (by intros ?%elem_of_nil). apply lookup_empty.
  - rewrite fmap_cons, list_to_map_cons, lookup_insert.
    destruct (decide (a = b)) as [->|Hne].
    + by rewrite decide_True by (by left).
    + rewrite IH. destruct (decide (b ∈ l)) as [Hin|Hnot].
      * by rewrite decide_True by (by right).
      * rewrite decide_False; [done|].
        rewrite elem_of_cons. by intros [?|?].
Qed.

Lemma pivot_col_lookup df y r :
  r ∈ df →
  pivot_col (pivot_table df) y !! Brand r = Some (pivot_value df (Brand r) y).
Proof.
  intros Hr. unfold pivot_col.
  rewrite (lookup_keyed_list
             (λ b, opt_float (pivot_cells (pivot_table df) !! (b, y)))).
  rewrite decide_True.
  - by rewrite pivot_cells_lookup.
  - simpl. apply elem_of_unique. by apply list_elem_of_fmap_2.
Qed.

(** ** The YoY loop, row by row *)

Lemma yoy_step_fmap p view y : yoy_step p view y = (λ v, yoy_row p v y) <$> view.
Proof.
  unfold yoy_step, yoy_row.
  destruct (isin (pivot_columns p) (y - 1) && isin (pivot_columns p) y).
  - done.
  - by rewrite list_fmap_id.
Qed.

Lemma yoy_loop_fmap p ys view :
  foldl (yoy_step p) view ys = (λ v, foldl (yoy_row p) v ys) <$> view.
Proof.
  revert view. induction ys as [|y ys IH]; intros view; simpl.
  - by rewrite list_fmap_id.
  - by rewrite IH, yoy_step_fmap, <-list_fmap_compose.
Qed.

Lemma with_yoy_fmap df view :
  with_yoy df view =
  (λ v, foldl (yoy_row (pivot_table df)) v (drop 1 (years df))) <$> view.
Proof.
  unfold with_yoy. destruct (decide (2 ≤ length (years df))%nat) as [|Hlen].
  - apply yoy_loop_fmap.
  - rewrite drop_ge by lia. by rewrite list_fmap_id.
Qed.

Lemma filtered_view_fmap df c :
  filtered_view df c =
  (λ r, foldl (yoy_row (pivot_table df))
          (share_row (total_by_year (apply_filters df c)) r)
          (drop 1 (years df)))
    <$> apply_filters df c.
Proof.
  unfold filtered_view. rewrite with_yoy_fmap.
  unfold with_share. by rewrite <-list_fmap_compose.
Qed.

Lemma yoy_row_keeps p y v :
  base (yoy_row p v y) = base v
  ∧ TotalYear (yoy_row p v y) = TotalYear v
  ∧ Share (yoy_row p v y) = Share v.
Proof. unfold yoy_row. by repeat case_match. Qed.

Lemma yoy_row_other p y v : Year (base v) ≠ y → yoy_row p v y = v.
Proof. intros Hne. unfold yoy_row. by repeat case_match. Qed.

Lemma yoy_rows_keep p ys v :
  base (foldl (yoy_row p) v ys) = base v
  ∧ TotalYear (foldl (yoy_row p) v ys) = TotalYear v
  ∧ Share (foldl (yoy_row p) v ys) = Share v.
Proof.
  revert v. induction ys as [|y ys IH]; intros v; simpl; [done|].
  destruct (IH (yoy_row p v y)) as (-> & -> & ->). apply yoy_row_keeps.
Qed.

Lemma yoy_rows_other p ys v :
  Year (base v) ∉ ys → foldl (yoy_row p) v ys = v.
Proof.
  revert v. induction ys as [|y ys IH]; intros v Hnot; simpl; [done|].
  rewrite not_elem_of_cons in Hnot. destruct Hnot as [Hne Hnot].
  rewrite yoy_row_other by done. by apply IH.
Qed.

(** A year is the turn of the loop at most once: the row then holds what that
    turn assigned. *)
Lemma yoy_rows_once p ys v :
  NoDup ys → Year (base v) ∈ ys →
  foldl (yoy_row p) v ys = yoy_row p v (Year (base v)).
Proof.
  revert v. induction ys as [|y ys IH]; intros v Hnd Hin.
  - by apply elem_of_nil in Hin.
  - apply NoDup_cons in Hnd as [Hy Hnd]. simpl.
    destruct (decide (Year (base v) = y)) as [<-|Hne].
    + apply yoy_rows_other.
      by destruct (yoy_row_keeps p (Year (base v)) v) as (-> & _).
    + rewrite yoy_row_other by done. apply IH; [done|].
      apply elem_of_cons in Hin as [?|?]; [congruence|done].
Qed.

Lemma series_change df y r :
  r ∈ df →
  series_map (map_zip_with Float.sub (pivot_col (pivot_table df) y)
                (pivot_col (pivot_table df) (y - 1))) (Brand r)
  = Float.sub (pivot_value df (Brand r) y) (pivot_value df (Brand r) (y - 1)).
Proof.
  intros Hr. unfold series_map.
  by rewrite map_lookup_zip_with, !pivot_col_lookup.
Qed.

Lemma series_growth df y r :
  r ∈ df →
  series_map
    ((λ x, Float.mul x (Fin 100))
       <$> map_zip_with Float.div
             (map_zip_with Float.sub (pivot_col (pivot_table df) y)
                (pivot_col (pivot_table df) (y - 1)))
             (pivot_col (pivot_table df) (y - 1))) (Brand r)
  = Float.mul
      (Float.div
         (Float.sub (pivot_value df (Brand r) y)
            (pivot_value df (Brand r) (y - 1)))
         (pivot_value df (Brand r) (y - 1)))
      (Fin 100).
Proof.
  intros Hr. unfold series_map.
  by rewrite lookup_fmap, !map_lookup_zip_with, !pivot_col_lookup.
Qed.

Lemma elem_of_apply_filters df c r : r ∈ apply_filters df c → r ∈ df.
Proof.
  unfold apply_filters.
  destruct (mode c); [|destruct (manual_brands c)];
    rewrite ?list_elem_of_filter; tauto.
Qed.

Lemma isin_pivot_columns df y :
  isin (pivot_columns (pivot_table df)) y = bool_decide (y ∈ Year <$> df).
Proof. unfold isin. simpl. apply bool_decide_ext, elem_of_years. Qed.

(** The turn of a row's own year assigns what [deriveYoY] says. *)
Lemma yoy_row_own_year df totals r :
  r ∈ df →
  let v := yoy_row (pivot_table df) (share_row totals r) (Year r) in
  (YoY_Change v, YoY_Growth v) = deriveYoY df (Brand r) (Year r).
Proof.
  intros Hr. unfold yoy_row, deriveYoY.
  rewrite !isin_pivot_columns.
  rewrite (bool_decide_eq_true_2 (Year r ∈ Year <$> df))
    by (by apply list_elem_of_fmap_2).
  rewrite andb_true_r.
  change (base (share_row totals r)) with r.
  rewrite decide_True by done.
  destruct (decide (Year r - 1 ∈ Year <$> df)) as [Hprev|Hprev].
  - rewrite bool_decide_eq_true_2 by done.
    cbn [YoY_Change YoY_Growth].
    by rewrite series_change, series_growth.
  - by rewrite bool_decide_eq_false_2 by done.
Qed.

(** The two YoY columns of a row of the view, from the dataset alone. *)
Lemma yoy_of_view_row df totals r :
  r ∈ df →
  let v := foldl (yoy_row (pivot_table df)) (share_row totals r)
             (drop 1 (years df)) in
  (YoY_Change v, YoY_Growth v) = deriveYoY df (Brand r) (Year r).
Proof.
  intros Hr v. subst v.
  assert (Year r ∈ years df) as Hy
    by (apply elem_of_years; by apply list_elem_of_fmap_2).
  pose proof (NoDup_years df) as Hnd.
  destruct (years df) as [|y0 ys] eqn:Hys; [by apply elem_of_nil in Hy|].
  apply NoDup_cons in Hnd as [Hy0 Hnd].
  simpl drop.
  apply elem_of_cons in Hy as [Heq|Hin].
  - (* the least year: no turn of the loop, and no previous year *)
    subst y0. rewrite yoy_rows_other by done.
    unfold deriveYoY. rewrite decide_False; [done|].
    by eapply years_head_pred.
  - rewrite yoy_rows_once by done.
    by apply yoy_row_own_year.
Qed.

(** C6. The YoY change and growth of every row of the filtered view are those
    that [deriveYoY] gives for the row's brand and year from the pivot of the
    whole dataset: the controls (years, mode, N, manual list) play no part. *)
Theorem C6_yoy_from_the_full_dataset df c v :
  v ∈ filtered_view df c →
  base v ∈ df
  ∧ (YoY_Change v, YoY_Growth v)
    = deriveYoY df (Brand (base v)) (Year (base v)).
Proof.
  rewrite filtered_view_fmap.
  intros (r & -> & Hr%elem_of_apply_filters)%list_elem_of_fmap.
  destruct (yoy_rows_keep (pivot_table df) (drop 1 (years df))
              (share_row (total_by_year (apply_filters df c)) r)) as (-> & _).
  split; [done|]. by apply yoy_of_view_row.
Qed.

(** ** Sums of quantities *)

Lemma foldl_Qplus_shift (a : Q) (l : list Q) :
  (foldl Qplus a l == a + foldl Qplus 0 l)%Q.
Proof.
  revert a. induction l as [|x l IH]; intros a; simpl; [lra|].
  rewrite (IH (a + x)%Q), (IH (0 + x)%Q). lra.
Qed.

Lemma sum_where_cons (sel : record → Prop) `{∀ r, Decision (sel r)} r df :
  (sum_where sel (r :: df)
   == (if decide (sel r) then Retail r else 0) + sum_where sel df)%Q.
Proof.
  unfold sum_where. rewrite filter_cons.
  destruct (decide (sel r)); [|lra].
  rewrite fmap_cons. simpl. rewrite foldl_Qplus_shift. lra.
Qed.

Lemma sum_where_nonneg (sel : record → Prop) `{∀ r, Decision (sel r)} df :
  (∀ r, r ∈ df → (0 <= Retail r)%Q) → (0 <= sum_where sel df)%Q.
Proof.
  induction df as [|r df IH]; intros Hnn; [unfold sum_where; simpl; lra|].
  rewrite sum_where_cons.
  assert (0 <= sum_where sel df)%Q
    by (apply IH; intros r' Hr'; apply Hnn; by right).
  assert (0 <= Retail r)%Q by (apply Hnn; by left).
  destruct (decide (sel r)); lra.
Qed.

Lemma sum_where_ge_member (sel : record → Prop) `{∀ r, Decision (sel r)}
    df r :
  (∀ r, r ∈ df → (0 <= Retail r)%Q) → r ∈ df → sel r →
  (Retail r <= sum_where sel df)%Q.
Proof.
  induction df as [|r' df IH]; intros Hnn Hr Hsel;
    [by apply elem_of_nil in Hr|].
  rewrite sum_where_cons.
  assert (0 <= sum_where sel df)%Q
    by (apply sum_where_nonneg; intros x Hx; apply Hnn; by right).
  assert (0 <= Retail r')%Q by (apply Hnn; by left).
  apply elem_of_cons in Hr as [->|Hr].
  - rewrite decide_True by done. lra.
  - assert (Retail r <= sum_where sel df)%Q
      by (apply IH; [intros x Hx; apply Hnn; by right|done..]).
    destruct (decide (sel r')); lra.
Qed.

(** *** Whole quantities within [2 ^ 53] *)

Lemma whole_proper a b : (a == b)%Q → whole a → whole b.
Proof. intros Hab [n Hn]. exists n. by rewrite <-Hab. Qed.

Lemma whole_0 : whole 0.
Proof. by exists 0. Qed.

Lemma whole_integer q : Qden q = 1%positive → whole q.
Proof. destruct q as [n d]. simpl. intros ->. by exists n. Qed.

Lemma whole_plus a b : whole a → whole b → whole (a + b).
Proof.
  intros [n Hn] [m Hm]. exists (n + m). by rewrite Hn, Hm, inject_Z_plus.
Qed.

Lemma whole_opp a : whole a → whole (- a).
Proof. intros [n Hn]. exists (- n). by rewrite Hn, inject_Z_opp. Qed.

(** A whole number other than zero has a magnitude of at least 1. *)
Lemma whole_pos_ge_1 t : whole t → (0 < t)%Q → (1 <= t)%Q.
Proof.
  intros [n Hn]. rewrite Hn.
  change 0%Q with (inject_Z 0). change 1%Q with (inject_Z 1).
  rewrite <-Zlt_Qlt, <-Zle_Qle. lia.
Qed.

Lemma whole_nonzero_ge_1 t : whole t → ¬ (t == 0)%Q → (1 <= Qabs t)%Q.
Proof.
  intros Ht Hne. destruct (Qlt_le_dec 0 t) as [Hpos|Hle].
  - rewrite Qabs_pos by lra. by apply whole_pos_ge_1.
  - rewrite Qabs_neg by done.
    apply whole_pos_ge_1; [by apply whole_opp|].
    destruct (Qle_lt_or_eq _ _ Hle) as [Hlt|Heq]; [lra|done].
Qed.

Lemma magnitude_nonneg df : (0 <= magnitude df)%Q.
Proof.
  induction df as [|r df IH]; simpl; [lra|].
  pose proof (Qabs_nonneg (Retail r)). lra.
Qed.

Lemma magnitude_sublist l1 l2 :
  l1 `sublist_of` l2 → (magnitude l1 <= magnitude l2)%Q.
Proof.
  induction 1 as [|r l1 l2 _ IH|r l1 l2 _ IH]; simpl; [lra|lra|].
  pose proof (Qabs_nonneg (Retail r)). lra.
Qed.

Lemma magnitude_member df r :
  r ∈ df → (Qabs (Retail r) <= magnitude df)%Q.
Proof.
  induction df as [|r' df IH]; [by intros ?%elem_of_nil|].
  simpl. intros [->|Hr%IH]%elem_of_cons.
  - pose proof (magnitude_nonneg df). lra.
  - pose proof (Qabs_nonneg (Retail r')). lra.
Qed.

Lemma in_range_sublist l1 l2 :
  l1 `sublist_of` l2 → in_range l2 → in_range l1.
Proof.
  unfold in_range. intros Hsub%magnitude_sublist Hmag. lra.
Qed.

Lemma exact_quantities_sublist l1 l2 :
  l1 `sublist_of` l2 → exact_quantities l2 → exact_quantities l1.
Proof.
  intros Hsub [Hwhole Hmag]. split; [|by eapply in_range_sublist].
  clear Hmag. induction Hsub as [|r l1 l2 _ IH|r l1 l2 _ IH]; [done| |].
  - apply Forall_cons in Hwhole as [? ?]. constructor; auto.
  - apply Forall_cons in Hwhole as [? ?]. auto.
Qed.


Lemma sum_where_whole (sel : record → Prop) `{∀ r, Decision (sel r)} df :
  Forall (λ r, whole (Retail r)) df → whole (sum_where sel df).
Proof.
  induction 1 as [|r df Hr _ IH]; [apply whole_0|].
  eapply whole_proper; [symmetry; apply sum_where_cons|].
  apply whole_plus; [|done]. destruct (decide (sel r)); [done|apply whole_0].
Qed.

Lemma sum_where_magnitude (sel : record → Prop) `{∀ r, Decision (sel r)} df :
  (Qabs (sum_where sel df) <= magnitude df)%Q.
Proof.
  induction df as [|r df IH]; [by vm_compute|].
  rewrite sum_where_cons. simpl.
  eapply Qle_trans; [apply Qabs_triangle|].
  apply Qplus_le_compat; [|done].
  destruct (decide (sel r)); [lra|]. apply Qabs_nonneg.
Qed.

(** On a dataset that is [in_range], every sum of quantities lies within
    [± 2 ^ 53]. *)
Lemma in_range_sum_where (sel : record → Prop) `{∀ r, Decision (sel r)} df :
  in_range df → (Qabs (sum_where sel df) <= inject_Z (2 ^ 53))%Q.
Proof.
  intros Hmag. eapply Qle_trans; [apply sum_where_magnitude|done].
Qed.

(** On a dataset of [exact_quantities], every sum of quantities is a whole
    number within [± 2 ^ 53]. *)
Lemma exact_sum_where (sel : record → Prop) `{∀ r, Decision (sel r)} df :
  exact_quantities df →
  whole (sum_where sel df)
  ∧ (Qabs (sum_where sel df) <= inject_Z (2 ^ 53))%Q.
Proof.
  intros [Hwhole Hmag]. split; [by apply sum_where_whole|].
  by apply in_range_sum_where.
Qed.

(** ** Share *)

Lemma apply_filters_sublist df c : apply_filters df c `sublist_of` df.
Proof.
  unfold apply_filters.
  destruct (mode c); [|destruct (manual_brands c)];
    repeat (etrans; [apply sublist_filter|]); done.
Qed.

Lemma year_filter_eq (df : list record) (sel : list Z) :
  filter (λ r, isin sel (Year r) = true) df = filter (λ r, Year r ∈ sel) df.
Proof. apply list_filter_iff. intros r. apply elem_of_isin. Qed.

Lemma base_filtered_view df c : base <$> filtered_view df c = apply_filters df c.
Proof.
  rewrite filtered_view_fmap, <-list_fmap_compose.
  rewrite <-(list_fmap_id (apply_filters df c)) at 2.
  apply list_fmap_ext. intros _ r _. simpl.
  by destruct (yoy_rows_keep (pivot_table df) (drop 1 (years df))
                 (share_row (total_by_year (apply_filters df c)) r)) as (-> & _).
Qed.

Lemma is_pos_true t : (0 < t)%Q → Float.is_pos t = true.
Proof.
  intros Ht. unfold Float.is_pos. apply negb_true_iff, not_true_is_false.
  rewrite Qle_bool_iff. by apply Qlt_not_le.
Qed.

Lemma is_pos_false t : ¬ (0 < t)%Q → Float.is_pos t = false.
Proof.
  intros Ht. unfold Float.is_pos. apply negb_false_iff, Qle_bool_iff.
  by apply Qnot_lt_le.
Qed.

Lemma is_zero_false t : ¬ (t == 0)%Q → Float.is_zero t = false.
Proof.
  intros Ht. unfold Float.is_zero. apply not_true_is_false.
  by rewrite Qeq_bool_iff.
Qed.

Lemma share_row_spec totals r t :
  totals !! Year r = Some t →
  TotalYear (share_row totals r) = Fin t
  ∧ ((0 < t)%Q → Share (share_row totals r) = Fin (Retail r / t * 100))
  ∧ (¬ (0 < t)%Q → Share (share_row totals r) = NaN).
Proof.
  intros Ht. unfold share_row. rewrite Ht. cbn [TotalYear Share opt_float].
  split; [done|]. split; intros Hpos; cbn [Float.gt0].
  - rewrite is_pos_true by done. cbn [Float.div Float.mul].
    rewrite is_zero_false; [done|].
    intros Hz. rewrite Hz in Hpos. by apply Qlt_irrefl in Hpos.
  - by rewrite is_pos_false.
Qed.

(** A row of the view, with what [share_row] put in it. *)
Lemma view_row_share df c v :
  v ∈ filtered_view df c →
  ∃ r, r ∈ apply_filters df c ∧ base v = r
       ∧ TotalYear v = TotalYear (share_row (total_by_year (apply_filters df c)) r)
       ∧ Share v = Share (share_row (total_by_year (apply_filters df c)) r).
Proof.
  rewrite filtered_view_fmap. intros (r & -> & Hr)%list_elem_of_fmap.
  exists r. split; [done|].
  apply yoy_rows_keep.
Qed.

(** When no quantity is negative, a share is missing or lies from 0 to
    100. *)
Lemma view_share_bounds df c v :
  (∀ r, r ∈ df → (0 <= Retail r)%Q) →
  v ∈ filtered_view df c →
  Share v = NaN ∨ ∃ s, Share v = Fin s ∧ (0 <= s <= 100)%Q.
Proof.
  intros Hnn (r & Hr & Hbase & _ & ->)%view_row_share.
  pose proof (total_by_year_lookup _ _ Hr) as Ht.
  destruct (share_row_spec _ _ _ Ht) as (_ & Hpos & Hnot).
  set (t := year_total (apply_filters df c) (Year r)) in *.
  destruct (Qlt_le_dec 0 t) as [Hlt|Hle].
  - right. eexists. split; [by apply Hpos|].
    assert (∀ r', r' ∈ apply_filters df c → (0 <= Retail r')%Q) as Hnn'
      by (intros r' Hr'%elem_of_apply_filters; by apply Hnn).
    assert (Retail r <= t)%Q as Hrt
      by (by apply (sum_where_ge_member (λ r', Year r' = Year r))).
    assert (0 <= Retail r)%Q as Hr0 by (by apply Hnn').
    assert (0 <= Retail r / t <= 1)%Q as [H0 H1].
    { split.
      - apply Qle_shift_div_l; [done|]. lra.
      - apply Qle_shift_div_r; [done|]. lra. }
    split; lra.
  - left. apply Hnot. by apply Qle_not_lt.
Qed.

(** C7 (as the code has it). On a dataset of whole quantities within
    [2 ^ 53], in every row of the filtered view [TotalYear] is the exact
    total of the row's year, a whole number within [± 2 ^ 53]; [Share] is
    [Retail / TotalYear * 100] when that total is positive, which then is at
    least 1, and NaN (no value) when it is zero or negative; it is never an
    infinity.  The function is total: nothing is raised.  The quotient is
    nevertheless taken for every row, by a zero total as well
    ([share_quotient]): it is its value that is discarded. *)
Theorem C7_share_is_guarded df c v :
  exact_quantities df →
  v ∈ filtered_view df c →
  let t := year_total (base <$> filtered_view df c) (Year (base v)) in
  TotalYear v = Fin t
  ∧ whole t
  ∧ (Qabs t <= inject_Z (2 ^ 53))%Q
  ∧ (Qabs (Retail (base v)) <= inject_Z (2 ^ 53))%Q
  ∧ ((0 < t)%Q →
     (1 <= t)%Q ∧ Share v = Fin (Retail (base v) / t * 100))
  ∧ (¬ (0 < t)%Q → Share v = NaN)
  ∧ Float.is_inf (Share v) = false.
Proof.
  intros Hexact (r & Hr & -> & -> & ->)%view_row_share.
  rewrite base_filtered_view.
  pose proof (exact_quantities_sublist _ _ (apply_filters_sublist df c) Hexact)
    as Hexact'.
  destruct (exact_sum_where (λ r', Year r' = Year r) _ Hexact')
    as [Hwhole Hbound].
  pose proof (total_by_year_lookup _ _ Hr) as Ht.
  destruct (share_row_spec _ _ _ Ht) as (HT & Hpos & Hnot).
  split; [done|]. split; [done|]. split; [done|]. split.
  { eapply Qle_trans; [by apply magnitude_member|]. apply Hexact'. }
  split; [|split].
  - intros Hlt. split; [by apply whole_pos_ge_1|by apply Hpos].
  - done.
  - destruct (Qlt_le_dec 0 (year_total (apply_filters df c) (Year r)))
      as [Hlt|Hle].
    + by rewrite Hpos.
    + rewrite Hnot; [done|]. by apply Qle_not_lt.
Qed.





(** Controls that narrow nothing: every year selected, manual mode, no brand
    picked.  The view then has the rows of the whole dataset. *)
Lemma unfiltered_view df c :
  (∀ r, r ∈ df → Year r ∈ selected_years c) →
  mode c = ManualBrands → manual_brands c = [] →
  base <$> filtered_view df c = df.
Proof.
  intros Hall Hmode Hmb. rewrite base_filtered_view. unfold apply_filters.
  rewrite Hmode, Hmb, year_filter_eq.
  induction df as [|r df IH]; [done|].
  rewrite filter_cons, decide_True by (apply Hall; left).
  f_equal. apply IH. intros r' Hr'. apply Hall. by right.
Qed.


(** ** Manual brand selection *)

(** C2 (as the code has it). In manual mode an empty brand list applies no
    brand filter: the view holds every row of the selected years, all brands
    included.  A list that is not empty keeps exactly the rows of the selected
    years whose brand is in the list. *)
Theorem C2_manual_selection df c :
  mode c = ManualBrands →
  (manual_brands c = [] →
   base <$> filtered_view df c
   = filter (λ r, Year r ∈ selected_years c) df)
  ∧ (manual_brands c ≠ [] →
     base <$> filtered_view df c
     = filter (λ r, Year r ∈ selected_years c ∧ Brand r ∈ manual_brands c) df).
Proof.
  intros Hmode. rewrite base_filtered_view. unfold apply_filters.
  rewrite Hmode. split.
  - intros ->. apply list_filter_iff. intros r. apply elem_of_isin.
  - intros Hne. destruct (manual_brands c) as [|b bs] eqn:Hmb; [done|].
    rewrite list_filter_filter. apply list_filter_iff. intros r.
    rewrite !elem_of_isin. tauto.
Qed.

(** ** Top N per year *)

Lemma elem_of_take_1 {A} (x : A) n l : x ∈ take n l → x ∈ l.
Proof.
  intros Hx. rewrite <-(take_drop n l). apply elem_of_app. by left.
Qed.

Lemma length_unique_le {A} `{EqDecision A} (l : list A) :
  (length (unique l) ≤ length l)%nat.
Proof.
  induction l as [|a l IH]; simpl; [done|].
  pose proof (length_filter (λ y, y ≠ a) (unique l)). lia.
Qed.

Lemma elem_of_nlargest n g r : r ∈ nlargest n g → r ∈ g.
Proof.
  unfold nlargest. intros Hr%elem_of_take_1. by apply elem_of_stable_sort in Hr.
Qed.

(** [nlargest] splits the group: at most [n] rows are taken, and no row that
    is left has a larger quantity than a row that is taken. *)
Lemma nlargest_spec n g :
  (length (nlargest n g) ≤ n)%nat
  ∧ ∃ rest, nlargest n g ++ rest ≡ₚ g
            ∧ ∀ r r', r ∈ nlargest n g → r' ∈ rest →
                      (Retail r' <= Retail r)%Q.
Proof.
  unfold nlargest. split.
  - rewrite length_take. lia.
  - set (le := λ r1 r2 : record, Qle_bool (Retail r2) (Retail r1)).
    exists (drop n (stable_sort le g)). split.
    + by rewrite take_drop, stable_sort_Permutation.
    + intros r r' Hr Hr'. apply Qle_bool_iff.
      apply (stable_sort_take_drop le) with (n := n) (l := g); [| |done..].
      * intros x y. unfold le. rewrite !Qle_bool_iff.
        destruct (Qlt_le_dec (Retail x) (Retail y)) as [?%Qlt_le_weak|?]; auto.
      * intros x y z. unfold le. rewrite !Qle_bool_iff.
        intros ? ?. by eapply Qle_trans.
Qed.

Lemma elem_of_top_brands n df_f b :
  b ∈ top_brands n df_f ↔
  ∃ y r, r ∈ nlargest n (in_year y df_f) ∧ Brand r = b.
Proof.
  unfold top_brands.
  rewrite elem_of_unique, list_elem_of_fmap. split.
  - intros (r & -> & (y & Hr & _)%list_elem_of_bind). by exists y, r.
  - intros (y & r & Hr & <-). exists r. split; [done|].
    apply list_elem_of_bind. exists y. split; [done|].
    apply elem_of_nlargest in Hr.
    apply list_elem_of_filter in Hr as [<- Hr].
    apply elem_of_years. by apply list_elem_of_fmap_2.
Qed.

Lemma nlargest_length n g :
  length (nlargest n g) = (n `min` length g)%nat.
Proof. unfold nlargest. by rewrite length_take, length_stable_sort. Qed.

Lemma nlargest_sorted n g :
  StronglySorted (λ r1 r2, (Retail r2 <= Retail r1)%Q) (nlargest n g).
Proof.
  unfold nlargest.
  set (le := λ r1 r2 : record, Qle_bool (Retail r2) (Retail r1)).
  apply (StronglySorted_app_1_l _ _ (drop n (stable_sort le g))).
  rewrite take_drop.
  eapply StronglySorted_mono; [|apply (stable_sort_StronglySorted le)].
  - intros x y. unfold le_rel, le. apply Qle_bool_iff.
  - intros x y. unfold le. rewrite !Qle_bool_iff.
    destruct (Qlt_le_dec (Retail x) (Retail y)) as [?%Qlt_le_weak|?]; auto.
  - intros x y z. unfold le. rewrite !Qle_bool_iff.
    intros ? ?. by eapply Qle_trans.
Qed.

(** C9. In the mode "top N per year", the rows of the selected years are
    ranked year by year by quantity, largest first: the rows taken in a year
    are N of its rows, or all of them when the year has fewer, in descending
    order of quantity, and no row left has a larger quantity than a row
    taken.  So at most N brands are taken in each year; the brand names taken
    are united across the years; and the view keeps every row of the selected
    years whose brand is in that union, with no second filter per year. *)
Theorem C9_top_n_per_year_union df c :
  mode c = TopPerYear →
  let df_y := filter (λ r, Year r ∈ selected_years c) df in
  let top := λ y, nlargest (topn c) (in_year y df_y) in
  (∀ y, length (top y) = (topn c `min` length (in_year y df_y))%nat
        ∧ StronglySorted (λ r1 r2, (Retail r2 <= Retail r1)%Q) (top y)
        ∧ (length (unique (Brand <$> top y)) ≤ topn c)%nat
        ∧ ∃ rest, top y ++ rest ≡ₚ in_year y df_y
                  ∧ ∀ r r', r ∈ top y → r' ∈ rest →
                            (Retail r' <= Retail r)%Q)
  ∧ (∀ b, b ∈ top_brands (topn c) df_y ↔ ∃ y r, r ∈ top y ∧ Brand r = b)
  ∧ base <$> filtered_view df c
    = filter (λ r, Brand r ∈ top_brands (topn c) df_y) df_y.
Proof.
  intros Hmode df_y top. split; [|split].
  - intros y. destruct (nlargest_spec (topn c) (in_year y df_y)) as [Hlen Hrest].
    split; [apply nlargest_length|]. split; [apply nlargest_sorted|].
    split; [|done].
    etrans; [apply length_unique_le|]. by rewrite length_fmap.
  - intros b. apply elem_of_top_brands.
  - rewrite base_filtered_view. unfold apply_filters.
    rewrite Hmode, year_filter_eq. fold df_y.
    apply list_filter_iff. intros r. apply elem_of_isin.
Qed.

(** ** Worked examples *)

(** C1. A brand with quantity 0 in 2020 and 5 in 2021: the code gives the 2021
    row the change 5 and the growth [+inf], where the claim wants no value. *)
Theorem C1_growth_is_infinite_on_a_zero_base :
  (λ v, (Brand (base v), Year (base v), YoY_Change v, YoY_Growth v))
    <$> filter (λ v, Brand (base v) = "Esemka")
          (filtered_view Sample.dataset_zero_base Sample.manual_none)
  = [ ("Esemka", 2020, NaN, NaN); ("Esemka", 2021, Fin 5, PInf) ].
Proof. vm_compute. reflexivity. Qed.

(** The parts of C1 that the code does keep: a brand without a row in the
    previous year has neither change nor growth. *)
Lemma deriveYoY_absent df b y :
  pivot_value df b (y - 1) = NaN → deriveYoY df b y = (NaN, NaN).
Proof.
  intros Habs. unfold deriveYoY. rewrite Habs.
  destruct (decide (y - 1 ∈ Year <$> df)); [|done].
  by destruct (pivot_value df b y).
Qed.

(** On a base of zero the change is the quantity of the year; the growth is
    NaN only if that quantity is zero too, and an infinity otherwise. *)
Lemma deriveYoY_zero_base df b y q :
  y - 1 ∈ Year <$> df →
  pivot_value df b (y - 1) = Fin 0 →
  pivot_value df b y = Fin q →
  (deriveYoY df b y).1 ≈ Fin q
  ∧ (deriveYoY df b y).2
    = if Float.is_zero (q + - 0) then NaN else Float.signed_inf (q + - 0).
Proof.
  intros Hprev H0 Hq. unfold deriveYoY.
  rewrite decide_True, H0, Hq by done. simpl. split.
  - ring.
  - unfold Float.signed_inf. by repeat case_match.
Qed.

(** C3. A row whose brand cell holds white space only is kept by [to_long],
    with the empty string as its brand. *)
Theorem C3_blank_brand_is_kept :
  Sample.to_long Sample.table_blank_brand 2020
  = Ok [ {| Year := 2020; Brand := "Toyota"; Retail := 1000 |};
         {| Year := 2020; Brand := ""; Retail := 500 |} ].
Proof. vm_compute. reflexivity. Qed.

(** The same in every version of pandas: the table has no missing cell. *)
Lemma blank_brand_is_kept_in_every_version na :
  to_long Sample.to_numeric_str Sample.str_of_num na
    Sample.table_blank_brand 2020
  = Ok [ {| Year := 2020; Brand := "Toyota"; Retail := 1000 |};
         {| Year := 2020; Brand := ""; Retail := 500 |} ].
Proof. vm_compute. reflexivity. Qed.

(** A brand cell that holds text, white space included, is not a missing
    value once it is stripped, so the [dropna] on [Brand] does not drop its
    row: the row is kept exactly when its quantity is valid, whatever
    [astype(str)] makes of a missing value. *)
Lemma dropna_row_brand parse repr na year i j row s :
  row !! i = Some (CStr s) →
  dropna_row year (out_row parse repr na i j row)
  = (λ q, {| Year := year; Brand := Str.strip s; Retail := q |})
      <$> to_numeric parse (default CNaN (row !! j)).
Proof.
  intros Hs. unfold dropna_row, out_row. rewrite Hs. simpl.
  by destruct (to_numeric parse (default CNaN (row !! j))).
Qed.

(** C4, as claimed, fails: a file that resolves the year 2019 and has no
    valid quantity gives no record and is reported as used. *)
Lemma C4_used_file_without_records :
  Sample.load_dataset_from_folder "data" [on_disk Sample.file_2019]
  = Ok ([], ["2019_data.csv"]).
Proof. vm_compute. reflexivity. Qed.

(** C5. The resolvers are total functions, and the quantity column of a
    table with fewer than two columns, none named after "retail", is [None]. *)
Lemma pick_retail_col_short cols :
  (length cols < 2)%nat → find_col "retail" cols = None →
  pick_retail_col cols = None.
Proof.
  intros Hlen Hfind. unfold pick_retail_col. rewrite Hfind.
  destruct (decide (1 < length cols)%nat); [lia|done].
Qed.

(** C5. The merge of a folder that holds a single-column file raises
    [KeyError]: [to_long] selects the column [None]. *)
Theorem C5_one_column_file_raises :
  pick_retail_col (columns Sample.file_one_column.2) = None
  ∧ Sample.to_long (load_one_csv Sample.file_one_column.2) 2020 = Raise KeyError
  ∧ Sample.load_dataset_from_folder "data" [on_disk Sample.file_one_column]
    = Raise KeyError.
Proof. vm_compute. auto. Qed.

(** C2, as claimed, fails: with no brand picked in manual mode the view
    holds all four rows of the dataset. *)
Lemma C2_empty_manual_list_keeps_all :
  mode Sample.manual_none = ManualBrands
  ∧ manual_brands Sample.manual_none = []
  ∧ length (filtered_view Sample.dataset Sample.manual_none) = 4%nat
  ∧ base <$> filtered_view Sample.dataset Sample.manual_none = Sample.dataset.
Proof. vm_compute. auto. Qed.

(** C7, as claimed, fails on "never divides by zero": line 183 takes the
    quotient [Retail / TotalYear] on every row before [np.where] picks from
    it.  In a year whose sales and returns cancel, and in a year without
    sales, the total is 0 and the quotient is taken by it: numpy gives an
    infinity or NaN without raising, and [np.where] puts NaN in [Share]. *)
Lemma C7_share_divides_by_a_zero_total :
  exact_quantities Extra.dataset_zero_totals
  ∧ (λ v, (Brand (base v), TotalYear v,
           Float.div (Fin (Retail (base v))) (TotalYear v),
           share_quotient (TotalYear v) (base v), Share v))
      <$> filtered_view Extra.dataset_zero_totals Extra.top_5
    = [ ("Toyota", Fin 0, PInf, PInf, NaN);
        ("Honda", Fin 0, NInf, NInf, NaN);
        ("Esemka", Fin 0, NaN, NaN, NaN) ].
Proof.
  split; [|vm_compute; reflexivity].
  split; [|by vm_compute].
  repeat constructor; by apply whole_integer.
Qed.

(** ** The theorems at the sample data *)

Lemma sample_dataset_in_range : in_range Sample.dataset.
Proof. by vm_compute. Qed.

Lemma sample_dataset_exact : exact_quantities Sample.dataset.
Proof.
  split; [|exact sample_dataset_in_range].
  repeat constructor; by apply whole_integer.
Qed.

Lemma sample_dataset_nonneg r : r ∈ Sample.dataset → (0 <= Retail r)%Q.
Proof.
  intros Hr. unfold Sample.dataset in Hr.
  repeat (apply elem_of_cons in Hr as [->|Hr]); [..|by apply elem_of_nil in Hr];
    by vm_compute.
Qed.

Lemma C10_merged_years_witness :
  Sample.load_dataset_from_folder "data"
    (on_disk <$> [Sample.file_2021; Sample.file_2020])
  = Ok (Sample.dataset, ["2020_data.csv"; "2021_data.csv"])
  ∧ Sample.honda_2020 ∈ Sample.dataset
  ∧ 2000 ≤ Year Sample.honda_2020 ≤ 2099.
Proof.
  assert (Sample.load_dataset_from_folder "data"
            (on_disk <$> [Sample.file_2021; Sample.file_2020])
          = Ok (Sample.dataset, ["2020_data.csv"; "2021_data.csv"])) as Hload
    by (vm_compute; reflexivity).
  assert (Sample.honda_2020 ∈ Sample.dataset) as Hin
    by (apply list_elem_of_further, list_elem_of_here).
  split; [exact Hload|]. split; [exact Hin|].
  exact (C10_merged_years_in_this_century _ _ _ _ _ _ _ _ Hload Hin).
Defined.

Lemma C4_used_files_witness :
  (Sample.load_dataset_from_folder "data"
     (on_disk <$> [Sample.file_2021; Sample.file_2019; Sample.file_2020])
   = Ok (Sample.dataset, ["2019_data.csv"; "2020_data.csv"; "2021_data.csv"])
   ∧ ["2019_data.csv"; "2020_data.csv"; "2021_data.csv"]
     = files_with_year "data"
         (on_disk <$> [Sample.file_2021; Sample.file_2019; Sample.file_2020]))
  ∧ (Forall readable (candidate_files [on_disk Sample.file_no_year])
     ∧ files_with_year "data" [on_disk Sample.file_no_year] = []
     ∧ Sample.load_dataset_from_folder "data" [on_disk Sample.file_no_year]
       = Ok ([], []))
  ∧ (candidate_files Extra.folder_with_empty_file
     = (on_disk <$> [Sample.file_2020; Sample.file_2021])
         ++ ("stock_data.csv", Unreadable EmptyDataError) :: []
     ∧ Sample.load_dataset_from_folder "data" Extra.folder_with_empty_file
       = Raise EmptyDataError).
Proof.
  assert (Sample.load_dataset_from_folder "data"
            (on_disk <$> [Sample.file_2021; Sample.file_2019; Sample.file_2020])
          = Ok (Sample.dataset,
                ["2019_data.csv"; "2020_data.csv"; "2021_data.csv"])) as Hload
    by (vm_compute; reflexivity).
  assert (Forall readable (candidate_files [on_disk Sample.file_no_year]))
    as Hread by (repeat constructor; by eexists).
  assert (files_with_year "data" [on_disk Sample.file_no_year] = []) as Hnone
    by (vm_compute; reflexivity).
  assert (candidate_files Extra.folder_with_empty_file
          = (on_disk <$> [Sample.file_2020; Sample.file_2021])
              ++ ("stock_data.csv", Unreadable EmptyDataError) :: []) as Hcand
    by (vm_compute; reflexivity).
  assert (∀ f y,
            f ∈ tables (on_disk <$> [Sample.file_2020; Sample.file_2021]) →
            resolve_year "data" f = Some y →
            ∃ part, Sample.to_long (load_one_csv f.2) y = Ok part) as Hparts.
  { intros f y. rewrite tables_on_disk.
    intros [->|[->|[]%elem_of_nil]%elem_of_cons]%elem_of_cons [= <-];
      eexists; vm_compute; reflexivity. }
  split; [|split].
  - split; [exact Hload|].
    exact (proj1 (C4_used_files_are_the_files_with_a_year _ _ _ _ _) _ _ Hload).
  - split; [exact Hread|]. split; [exact Hnone|].
    exact (proj1 (proj2 (C4_used_files_are_the_files_with_a_year
                           Sample.to_numeric_str Sample.str_of_num
                           Sample.astype_str_na _ _))
             Hread Hnone).
  - split; [exact Hcand|].
    exact (proj2 (proj2 (C4_used_files_are_the_files_with_a_year
                           Sample.to_numeric_str Sample.str_of_num
                           Sample.astype_str_na "data"
                           Extra.folder_with_empty_file))
             _ _ _ _ Hcand (Forall_readable_on_disk _) Hparts).
Defined.

Lemma C6_yoy_witness :
  Sample.row_toyota_2021 ∈ filtered_view Sample.dataset Sample.top_1
  ∧ base Sample.row_toyota_2021 ∈ Sample.dataset
  ∧ (YoY_Change Sample.row_toyota_2021, YoY_Growth Sample.row_toyota_2021)
    = deriveYoY Sample.dataset "Toyota" 2021.
Proof.
  assert (Sample.row_toyota_2021 ∈ filtered_view Sample.dataset Sample.top_1)
    as Hin by (vm_compute; apply list_elem_of_further, list_elem_of_here).
  split; [exact Hin|].
  exact (C6_yoy_from_the_full_dataset _ _ _ Hin).
Defined.

Lemma C7_share_witness :
  exact_quantities Sample.dataset
  ∧ Sample.row_toyota_2021 ∈ filtered_view Sample.dataset Sample.top_1
  ∧ (0 < year_total (base <$> filtered_view Sample.dataset Sample.top_1) 2021)%Q
  ∧ TotalYear Sample.row_toyota_2021
    = Fin (year_total (base <$> filtered_view Sample.dataset Sample.top_1) 2021)
  ∧ Share Sample.row_toyota_2021
    = Fin (1200
           / year_total (base <$> filtered_view Sample.dataset Sample.top_1) 2021
           * 100)
  ∧ Float.is_inf (Share Sample.row_toyota_2021) = false.
Proof.
  assert (Sample.row_toyota_2021 ∈ filtered_view Sample.dataset Sample.top_1)
    as Hin by (vm_compute; apply list_elem_of_further, list_elem_of_here).
  assert (0 < year_total
                (base <$> filtered_view Sample.dataset Sample.top_1) 2021)%Q
    as Hpos by (vm_compute; reflexivity).
  split; [exact sample_dataset_exact|]. split; [exact Hin|].
  split; [exact Hpos|].
  destruct (C7_share_is_guarded _ _ _ sample_dataset_exact Hin)
    as (Htotal & _ & _ & _ & Hshare & _ & Hinf).
  split; [exact Htotal|].
  split; [exact (proj2 (Hshare Hpos)) | exact Hinf].
Defined.


Lemma C9_top_n_witness :
  mode Sample.top_1 = TopPerYear
  ∧ nlargest (topn Sample.top_1)
      (in_year 2020
         (filter (λ r, Year r ∈ selected_years Sample.top_1) Sample.dataset))
    = [ {| Year := 2020; Brand := "Toyota"; Retail := 1000 |} ]
  ∧ top_brands (topn Sample.top_1)
      (filter (λ r, Year r ∈ selected_years Sample.top_1) Sample.dataset)
    = ["Toyota"]
  ∧ base <$> filtered_view Sample.dataset Sample.top_1
    = [ {| Year := 2020; Brand := "Toyota"; Retail := 1000 |};
        {| Year := 2021; Brand := "Toyota"; Retail := 1200 |} ]
  ∧ length (nlargest (topn Sample.top_1)
              (in_year 2020
                 (filter (λ r, Year r ∈ selected_years Sample.top_1)
                    Sample.dataset)))
    = (topn Sample.top_1
       `min` length (in_year 2020
                       (filter (λ r, Year r ∈ selected_years Sample.top_1)
                          Sample.dataset)))%nat
  ∧ base <$> filtered_view Sample.dataset Sample.top_1
    = filter (λ r, Brand r ∈ top_brands (topn Sample.top_1)
                     (filter (λ r, Year r ∈ selected_years Sample.top_1)
                        Sample.dataset))
        (filter (λ r, Year r ∈ selected_years Sample.top_1) Sample.dataset).
Proof.
  split; [reflexivity|].
  split; [vm_compute; reflexivity|].
  split; [vm_compute; reflexivity|].
  split; [vm_compute; reflexivity|].
  destruct (C9_top_n_per_year_union Sample.dataset Sample.top_1 eq_refl)
    as (Htop & _ & Hview).
  split; [exact (proj1 (Htop 2020))|exact Hview].
Defined.

Lemma C2_manual_selection_witness :
  mode Sample.manual_none = ManualBrands
  ∧ manual_brands Sample.manual_none = []
  ∧ base <$> filtered_view Sample.dataset Sample.manual_none
    = filter (λ r, Year r ∈ [2020; 2021]) Sample.dataset.
Proof.
  split; [reflexivity|]. split; [reflexivity|].
  exact (proj1 (C2_manual_selection Sample.dataset Sample.manual_none eq_refl)
           eq_refl).
Defined.

(** * Further properties of the code *)

(** ** Strings: reversal and stripping *)

Lemma string_app_cons a s t : String a s +:+ t = String a (s +:+ t).
Proof. reflexivity. Qed.

Lemma string_app_nil_l t : "" +:+ t = t.
Proof. reflexivity. Qed.

Lemma string_app_nil_r s : s +:+ "" = s.
Proof.
  induction s as [|a s IH]; [done|]. by rewrite string_app_cons, IH.
Qed.

Lemma string_app_assoc s1 s2 s3 : (s1 +:+ s2) +:+ s3 = s1 +:+ (s2 +:+ s3).
Proof.
  induction s1 as [|a s1 IH]; [done|]. by rewrite !string_app_cons, IH.
Qed.

Lemma string_rev_app s1 s2 : String.rev_app s1 s2 = String.rev s1 +:+ s2.
Proof.
  unfold String.rev. revert s2.
  induction s1 as [|a s1 IH]; intros s2; simpl; [done|].
  rewrite (IH (String a s2)), (IH (String a "")).
  by rewrite string_app_assoc, string_app_cons, string_app_nil_l.
Qed.

Lemma string_rev_cons a s : String.rev (String a s) = String.rev s +:+ String a "".
Proof. unfold String.rev at 1. simpl. apply string_rev_app. Qed.

Lemma string_rev_snoc a s : String.rev (s +:+ String a "") = String a (String.rev s).
Proof.
  induction s as [|b s IH]; [done|].
  by rewrite string_app_cons, !string_rev_cons, IH, string_app_cons.
Qed.

Lemma string_rev_involutive s : String.rev (String.rev s) = s.
Proof.
  induction s as [|a s IH]; [done|].
  by rewrite string_rev_cons, string_rev_snoc, IH.
Qed.

Lemma string_rev_empty s : String.rev s = "" → s = "".
Proof.
  intros H. rewrite <-(string_rev_involutive s), H. done.
Qed.

Lemma string_snoc_not_empty s a : s +:+ String a "" ≠ "".
Proof. by destruct s. Qed.

Lemma lstrip_idemp s : Str.lstrip (Str.lstrip s) = Str.lstrip s.
Proof.
  induction s as [|a s IH]; [done|].
  simpl. destruct (Str.is_space a) eqn:E; [done|].
  simpl. by rewrite E.
Qed.

Lemma lstrip_snoc s a :
  Str.lstrip (s +:+ String a "") =
  if Str.is_space a
  then match Str.lstrip s with
       | EmptyString => EmptyString
       | t => t +:+ String a ""
       end
  else Str.lstrip s +:+ String a "".
Proof.
  induction s as [|b s IH].
  - rewrite string_app_nil_l. simpl. by destruct (Str.is_space a).
  - rewrite string_app_cons. simpl.
    destruct (Str.is_space b) eqn:Eb; [done|].
    by destruct (Str.is_space a).
Qed.

(** [rstrip] by recursion from the left. *)
Lemma rstrip_cons a s :
  Str.rstrip (String a s) =
  if Str.is_space a
  then match Str.rstrip s with
       | EmptyString => EmptyString
       | t => String a t
       end
  else String a (Str.rstrip s).
Proof.
  unfold Str.rstrip. rewrite string_rev_cons, lstrip_snoc.
  destruct (Str.is_space a).
  - destruct (Str.lstrip (String.rev s)) as [|b t] eqn:E; [done|].
    rewrite string_rev_snoc.
    destruct (String.rev (String b t)) eqn:E'; [|done].
    by apply string_rev_empty in E'.
  - by rewrite string_rev_snoc.
Qed.

Lemma rstrip_idemp s : Str.rstrip (Str.rstrip s) = Str.rstrip s.
Proof.
  unfold Str.rstrip. by rewrite string_rev_involutive, lstrip_idemp.
Qed.

Lemma lstrip_first s c :
  first_char (Str.lstrip s) = Some c → Str.is_space c = false.
Proof.
  induction s as [|a s IH]; simpl; [done|].
  destruct (Str.is_space a) eqn:E; [done|].
  by intros [= <-].
Qed.

Lemma lstrip_fixed s :
  (∀ c, first_char s = Some c → Str.is_space c = false) → Str.lstrip s = s.
Proof.
  destruct s as [|a s]; [done|]. intros H. simpl.
  by rewrite (H a).
Qed.

Lemma rstrip_first s c :
  (∀ c, first_char s = Some c → Str.is_space c = false) →
  first_char (Str.rstrip s) = Some c → Str.is_space c = false.
Proof.
  destruct s as [|a s]; [done|]. intros H.
  rewrite rstrip_cons, (H a) by done. simpl. intros [= <-]. by apply H.
Qed.

Lemma rstrip_last s c :
  last_char (Str.rstrip s) = Some c → Str.is_space c = false.
Proof.
  unfold last_char, Str.rstrip. rewrite string_rev_involutive.
  apply lstrip_first.
Qed.

Lemma strip_trimmed s : trimmed (Str.strip s).
Proof.
  unfold Str.strip. split.
  - intros c. apply rstrip_first. intros c'. apply lstrip_first.
  - intros c. apply rstrip_last.
Qed.

Lemma strip_fixed s : trimmed s → Str.strip s = s.
Proof.
  intros [Hfirst Hlast]. unfold Str.strip.
  rewrite (lstrip_fixed s) by done.
  unfold Str.rstrip. rewrite lstrip_fixed; [apply string_rev_involutive|].
  exact Hlast.
Qed.

Lemma strip_idemp s : Str.strip (Str.strip s) = Str.strip s.
Proof. apply strip_fixed, strip_trimmed. Qed.

(** ** Cleaned column labels *)

Lemma collapse_single_spaced b s :
  single_spaced b (Str.collapse_ws b s) = true.
Proof.
  revert b. induction s as [|c s IH]; intros b; [done|].
  simpl. destruct (Str.is_space c) eqn:E.
  - destruct b; [apply IH|]. simpl. by rewrite IH.
  - simpl. rewrite E. apply IH.
Qed.

Lemma single_spaced_collapse b s :
  single_spaced b s = true → Str.collapse_ws b s = s.
Proof.
  revert b. induction s as [|c s IH]; intros b; [done|].
  simpl. destruct (Str.is_space c) eqn:E.
  - intros [[Hc Hb%negb_true_iff]%andb_prop Hs]%andb_prop.
    apply Ascii.eqb_eq in Hc. subst b c. by rewrite IH.
  - intros Hs. by rewrite IH.
Qed.

Lemma single_spaced_lstrip b b' s :
  single_spaced b s = true → single_spaced b' (Str.lstrip s) = true.
Proof.
  revert b. induction s as [|c s IH]; intros b; [done|].
  simpl. destruct (Str.is_space c) eqn:E.
  - intros [_ Hs]%andb_prop. by eapply IH.
  - intros Hs. simpl. by rewrite E.
Qed.

Lemma single_spaced_rstrip b s :
  single_spaced b s = true → single_spaced b (Str.rstrip s) = true.
Proof.
  revert b. induction s as [|c s IH]; intros b; [done|].
  rewrite rstrip_cons. simpl. destruct (Str.is_space c) eqn:E.
  - intros [Hcb Hs%IH]%andb_prop.
    destruct (Str.rstrip s) as [|a t]; [done|].
    simpl in *. by rewrite E, Hcb, Hs.
  - intros Hs%IH. simpl. by rewrite E.
Qed.

(** X1. A cleaned column label is in normal form: its only white space is
    single spaces between words, with none at either end; cleaning a cleaned
    label changes nothing. *)
Theorem X1_clean_colname_normal_form c :
  single_spaced false (_clean_colname c) = true
  ∧ trimmed (_clean_colname c)
  ∧ _clean_colname (_clean_colname c) = _clean_colname c.
Proof.
  assert (single_spaced false (_clean_colname c) = true) as Hss.
  { unfold _clean_colname, Str.strip.
    apply single_spaced_rstrip, (single_spaced_lstrip false).
    apply collapse_single_spaced. }
  split; [done|]. split; [apply strip_trimmed|].
  unfold _clean_colname at 1.
  rewrite (single_spaced_collapse _ _ Hss).
  apply strip_idemp.
Qed.

(** ** The year resolver: leftmost match, file name first *)

Lemma string_length_app s t :
  String.length (s +:+ t) = (String.length s + String.length t)%nat.
Proof.
  induction s as [|a s IH]; [done|].
  rewrite string_app_cons. simpl. by rewrite IH.
Qed.

(** X2. [search_year] returns the year of the leftmost place where the
    pattern matches: no shorter prefix of the text is followed by a match.  It
    returns [None] exactly when the pattern matches nowhere. *)
Theorem X2_search_year_leftmost s :
  (∀ y, search_year s = Some y →
        ∃ pre post,
          s = pre +:+ post ∧ year_at post = Some y
          ∧ ∀ pre' post', s = pre' +:+ post' →
              (String.length pre' < String.length pre)%nat →
              year_at post' = None)
  ∧ (search_year s = None ↔ ∀ pre post, s = pre +:+ post → year_at post = None).
Proof.
  induction s as [|c s [IHsome IHnone]].
  - split; [discriminate|]. split; [|done].
    intros _ [|a pre] post; [|discriminate].
    rewrite string_app_nil_l. by intros <-.
  - rewrite search_year_cons. split; [intros y|].
    + destruct (year_at (String c s)) as [y0|] eqn:E.
      * intros [= <-]. exists "", (String c s). split; [done|]. split; [done|].
        intros pre' post' _ Hlen. simpl in Hlen. lia.
      * intros (pre & post & -> & Hat & Hmin)%IHsome.
        exists (String c pre), post. split; [done|]. split; [done|].
        intros [|a pre'] post'.
        -- rewrite string_app_nil_l. by intros <-.
        -- rewrite !string_app_cons. intros [= <- Heq] Hlen.
           apply (Hmin pre' post' Heq). simpl in Hlen. lia.
    + destruct (year_at (String c s)) as [y0|] eqn:E.
      * split; [discriminate|]. intros Hall.
        by rewrite (Hall "" (String c s)) in E.
      * rewrite IHnone. split.
        -- intros Hall [|a pre] post.
           ++ rewrite string_app_nil_l. by intros <-.
           ++ rewrite string_app_cons. intros [= <- Heq]. by eapply Hall.
        -- intros Hall pre post ->.
           by apply (Hall (String c pre) post).
Qed.

Lemma prefix_slash c s :
  String.prefix "/" (String c s) = Ascii.eqb c "/".
Proof.
  change (String.prefix "/" (String c s))
    with (match ascii_dec "/" c with
          | left _ => String.prefix "" s
          | right _ => false
          end).
  destruct (ascii_dec "/" c) as [<-|Hne]; [by destruct s|].
  symmetry. apply Ascii.eqb_neq. congruence.
Qed.

Lemma path_name_go_no_slash cur name :
  Str.contains "/" name = false →
  path_name_go cur name = String.rev cur +:+ name.
Proof.
  revert cur. induction name as [|c name IH]; intros cur.
  - intros _. simpl. by rewrite string_app_nil_r.
  - cbn [Str.contains path_name_go]. rewrite prefix_slash.
    intros [Hc Hname]%orb_false_elim. rewrite Hc, IH by done.
    by rewrite string_rev_cons, string_app_assoc.
Qed.

Lemma path_name_go_dir cur dir name :
  Str.contains "/" name = false →
  path_name_go cur (dir +:+ "/" +:+ name) = name.
Proof.
  intros Hname. revert cur. induction dir as [|c dir IH]; intros cur.
  - rewrite string_app_nil_l, string_app_cons, string_app_nil_l.
    cbn [path_name_go]. change (Ascii.eqb "/" "/") with true. cbn iota.
    by rewrite path_name_go_no_slash.
  - rewrite string_app_cons. cbn [path_name_go].
    destruct (Ascii.eqb c "/"); apply IH.
Qed.

(** X3. For a file name without a slash, the year of a file is the leftmost
    match in the file name itself, whatever the folder path holds; only when
    the name has no match is the first cleaned column header with a match
    used. *)
Theorem X3_file_name_year_first dir (f : string * DataFrame) :
  Str.contains "/" f.1 = false →
  resolve_year dir f =
  match search_year f.1 with
  | Some y => Some y
  | None => detect_year_from_columns (_clean_colname <$> columns f.2)
  end.
Proof.
  intros Hname. unfold resolve_year, detect_year_from_filename, path_name.
  rewrite path_name_go_dir by done. simpl.
  destruct (search_year f.1) as [y|] eqn:E; [|done].
  apply search_year_range in E. unfold py_or, this_century in *.
  destruct (Z.eqb_spec y 0); [lia|done].
Qed.

Lemma X3_file_name_year_first_witness :
  Str.contains "/" Sample.file_2020.1 = false
  ∧ resolve_year "archive_2019" Sample.file_2020 = Some 2020.
Proof.
  assert (Str.contains "/" Sample.file_2020.1 = false) as Hname
    by (vm_compute; reflexivity).
  split; [exact Hname|].
  rewrite (X3_file_name_year_first "archive_2019" Sample.file_2020 Hname).
  vm_compute. reflexivity.
Defined.

(** ** The column resolver *)

Lemma find_col_spec key cols :
  match find_col key cols with
  | Some c =>
      ∃ i, cols !! i = Some c ∧ Str.contains key (Str.lower c) = true
           ∧ ∀ j c', (j < i)%nat → cols !! j = Some c' →
                     Str.contains key (Str.lower c') = false
  | None => ∀ c, c ∈ cols → Str.contains key (Str.lower c) = false
  end.
Proof.
  induction cols as [|c cols IH]; simpl.
  - by intros c ?%elem_of_nil.
  - destruct (Str.contains key (Str.lower c)) eqn:E.
    + exists 0%nat. split; [done|]. split; [done|]. intros j c' Hj. lia.
    + destruct (find_col key cols) as [c0|].
      * destruct IH as (i & Hi & Hc0 & Hmin).
        exists (S i). split; [done|]. split; [done|].
        intros [|j] c' Hj; simpl; [by intros [= <-]|].
        apply Hmin. lia.
      * intros c' [->|Hin]%elem_of_cons; [done|by apply IH].
Qed.

(** X4. [pick_brand_col] never fails on a table that has a column: it returns
    a label of the table, the first one whose lower-cased text contains
    "brand", and the first label of all when none does; it returns [None] only
    for a table without columns. *)
Theorem X4_pick_brand_col cols :
  (pick_brand_col cols = None ↔ cols = [])
  ∧ ∀ c, pick_brand_col cols = Some c →
      c ∈ cols
      ∧ ((∃ i, cols !! i = Some c ∧ Str.contains "brand" (Str.lower c) = true
               ∧ ∀ j c', (j < i)%nat → cols !! j = Some c' →
                         Str.contains "brand" (Str.lower c') = false)
         ∨ (cols !! 0%nat = Some c
            ∧ ∀ c', c' ∈ cols → Str.contains "brand" (Str.lower c') = false)).
Proof.
  unfold pick_brand_col.
  pose proof (find_col_spec "brand" cols) as Hspec.
  destruct (find_col "brand" cols) as [c0|]; split.
  - split; [discriminate|]. intros ->. by destruct Hspec as (i & ? & _).
  - intros c [= <-]. destruct Hspec as (i & Hi & Hrest).
    split; [by eapply list_elem_of_lookup_2|]. left. by exists i.
  - destruct cols; [done|]. split; discriminate.
  - intros c Hc. split; [by eapply list_elem_of_lookup_2|]. by right.
Qed.

(** X5. [pick_retail_col] returns a label of the table: the first one whose
    lower-cased text contains "retail", and the second label of all when none
    does.  It returns [None] exactly when no label contains "retail" and the
    table has fewer than two columns. *)
Theorem X5_pick_retail_col cols :
  (pick_retail_col cols = None ↔
   (length cols < 2)%nat
   ∧ ∀ c, c ∈ cols → Str.contains "retail" (Str.lower c) = false)
  ∧ ∀ c, pick_retail_col cols = Some c →
      c ∈ cols
      ∧ ((∃ i, cols !! i = Some c ∧ Str.contains "retail" (Str.lower c) = true
               ∧ ∀ j c', (j < i)%nat → cols !! j = Some c' →
                         Str.contains "retail" (Str.lower c') = false)
         ∨ (cols !! 1%nat = Some c
            ∧ ∀ c', c' ∈ cols → Str.contains "retail" (Str.lower c') = false)).
Proof.
  unfold pick_retail_col.
  pose proof (find_col_spec "retail" cols) as Hspec.
  destruct (find_col "retail" cols) as [c0|]; split.
  - split; [discriminate|]. intros [_ Hall].
    destruct Hspec as (i & Hi%list_elem_of_lookup_2 & Hc0 & _).
    rewrite (Hall c0 Hi) in Hc0. discriminate.
  - intros c [= <-]. destruct Hspec as (i & Hi & Hrest).
    split; [by eapply list_elem_of_lookup_2|]. left. by exists i.
  - destruct (decide (1 < length cols)%nat) as [Hlen|Hlen].
    + split; [|lia]. intros Hnone%lookup_ge_None. lia.
    + split; [|done]. intros _. split; [lia|done].
  - intros c. destruct (decide (1 < length cols)%nat); [|done].
    intros Hc. split; [by eapply list_elem_of_lookup_2|]. by right.
Qed.

(** ** [to_long]: what the rows of the result are *)

Lemma StronglySorted_filter {A} (R : relation A) (P : A → Prop)
    `{∀ x, Decision (P x)} l :
  StronglySorted R l → StronglySorted R (filter P l).
Proof.
  induction 1 as [|x l Hl IH Hx]; [constructor|].
  rewrite filter_cons. destruct (decide (P x)); [|done].
  constructor; [done|].
  apply Forall_forall. intros y [_ Hy]%list_elem_of_filter.
  rewrite Forall_forall in Hx. by apply Hx.
Qed.

Lemma length_omap_filter {A B} (f : A → option B) (l : list A) :
  length (omap f l) = length (filter (λ x, is_Some (f x)) l).
Proof.
  induction l as [|a l IH]; [done|].
  rewrite filter_cons. csimpl.
  destruct (f a) as [b|] eqn:E.
  - rewrite decide_True by done. simpl. by f_equal.
  - rewrite decide_False by (by intros [? ?]). done.
Qed.

Section NormalizerMore.
Context (to_numeric_str : string → option Q) (str_of_num : Q → string).
Context (astype_str_na : option string).

Abbreviation to_long' := (to_long to_numeric_str str_of_num astype_str_na).
Abbreviation load_loop' :=
  (load_loop to_numeric_str str_of_num astype_str_na).
Abbreviation load' :=
  (load_dataset_from_folder to_numeric_str str_of_num astype_str_na).
Abbreviation to_numeric' := (to_numeric to_numeric_str).
Abbreviation astype_str' := (astype_str str_of_num astype_str_na).






(** ** The merge *)

Lemma load_loop_parts dir files parts used :
  load_loop' dir files = Ok (parts, used) →
  Forall2 (λ f part, ∃ y, resolve_year dir f = Some y
                          ∧ to_long' (load_one_csv f.2) y = Ok part)
    (filter (λ f, is_Some (resolve_year dir f)) (tables files)) parts.
Proof.
  revert parts used.
  induction files as [|[n [raw|e]] files IH]; intros parts used.
  - intros [= <- <-]. constructor.
  - rewrite load_loop_cons, tables_cons_parsed. simpl.
    destruct (resolve_year dir (n, raw)) as [year|] eqn:Hy.
    + intros (p & Hp & ([ps us] & Hrec & [= <- <-])%result_bind_Ok)%result_bind_Ok.
      rewrite filter_cons, decide_True by (by rewrite Hy).
      constructor; [by exists year|by eapply IH].
    + intros Hrec.
      rewrite filter_cons, decide_False by (rewrite Hy; by intros [? ?]).
      by eapply IH.
  - discriminate.
Qed.

Lemma load_loop_Ok dir files :
  (∃ res, load_loop' dir files = Ok res) ↔
  Forall readable files
  ∧ ∀ f y, f ∈ tables files → resolve_year dir f = Some y →
           ∃ part, to_long' (load_one_csv f.2) y = Ok part.
Proof.
  induction files as [|[n [raw|e]] files IH].
  - split; [|intros _; by eexists].
    intros _. split; [constructor|]. by intros f y ?%elem_of_nil.
  - rewrite load_loop_cons, tables_cons_parsed, Forall_cons. simpl.
    assert (readable (n, Parsed raw)) as Hraw by (by exists raw).
    destruct (resolve_year dir (n, raw)) as [year|] eqn:Hy.
    + split.
      * intros ([ps us] & (p & Hp & ([ps' us'] & Hrec & _)%result_bind_Ok)%result_bind_Ok).
        destruct (proj1 IH) as [Hread Hall]; [by eexists|].
        split; [done|].
        intros f' y [->|Hin]%elem_of_cons Hy'.
        -- rewrite Hy in Hy'. injection Hy' as <-. by exists p.
        -- by eapply Hall.
      * intros [[_ Hread] Hall].
        destruct (Hall (n, raw) year) as [p Hp]; [by left|done|].
        destruct (proj2 IH) as [[ps us] Hrec].
        { split; [done|]. intros f' y Hin. apply Hall. by right. }
        simpl in Hp. rewrite Hp, Hrec. by eexists.
    + rewrite IH. split.
      * intros [Hread Hall]. split; [done|].
        intros f' y [->|Hin]%elem_of_cons Hy'; [congruence|by eapply Hall].
      * intros [[_ Hread] Hall]. split; [done|].
        intros f' y Hin. apply Hall. by right.
  - rewrite load_loop_cons. simpl. split.
    + by intros [? ?].
    + intros [[[raw Hraw] _]%Forall_cons _]. discriminate.
Qed.

Lemma year_asc_retail_desc_total r1 r2 :
  year_asc_retail_desc r1 r2 = true ∨ year_asc_retail_desc r2 r1 = true.
Proof.
  unfold year_asc_retail_desc.
  destruct (Z.ltb_spec (Year r1) (Year r2)); [by left|].
  destruct (Z.ltb_spec (Year r2) (Year r1)); [by right|].
  rewrite !(proj2 (Z.eqb_eq _ _)) by lia. simpl.
  destruct (Qlt_le_dec (Retail r1) (Retail r2)) as [?%Qlt_le_weak|?];
    [right|left]; by apply Qle_bool_iff.
Qed.

Lemma year_asc_retail_desc_spec r1 r2 :
  year_asc_retail_desc r1 r2 = true ↔ merged_order r1 r2.
Proof.
  unfold year_asc_retail_desc, merged_order.
  rewrite orb_true_iff, andb_true_iff, Z.ltb_lt, Z.eqb_eq, Qle_bool_iff.
  done.
Qed.

Lemma merged_order_trans r1 r2 r3 :
  merged_order r1 r2 → merged_order r2 r3 → merged_order r1 r3.
Proof.
  unfold merged_order. intros [?|[? ?]] [?|[? ?]]; try (left; lia).
  right. split; [lia|]. by eapply Qle_trans.
Qed.

(** X7. The merged dataset is ordered by year ascending and, within a year,
    by quantity descending. *)
Theorem X7_merged_dataset_is_sorted dir fs data used :
  load' dir fs = Ok (data, used) → StronglySorted merged_order data.
Proof.
  unfold load_dataset_from_folder.
  intros ([parts us] & _ & Hret)%result_bind_Ok.
  destruct parts as [|p parts]; injection Hret as <- <-; [constructor|].
  eapply StronglySorted_mono;
    [|apply (stable_sort_StronglySorted year_asc_retail_desc)].
  - intros x y. apply year_asc_retail_desc_spec.
  - apply year_asc_retail_desc_total.
  - intros x y z. rewrite !year_asc_retail_desc_spec.
    apply merged_order_trans.
Qed.

(** X8. The merged dataset is, up to order, the concatenation of the tables
    that [to_long] gives for the files with a year, one table per file in the
    used-files list: the merge neither loses nor adds a record. *)
Theorem X8_merge_is_the_concatenation dir fs data used :
  load' dir fs = Ok (data, used) →
  ∃ parts,
    Forall2 (λ f part, ∃ y, resolve_year dir f = Some y
                            ∧ to_long' (load_one_csv f.2) y = Ok part)
      (filter (λ f, is_Some (resolve_year dir f))
         (tables (candidate_files fs))) parts
    ∧ used = (filter (λ f, is_Some (resolve_year dir f))
                (tables (candidate_files fs))).*1
    ∧ data ≡ₚ concat parts.
Proof.
  unfold load_dataset_from_folder.
  intros ([parts us] & Hloop & Hret)%result_bind_Ok.
  pose proof (load_loop_parts _ _ _ _ Hloop) as Hparts.
  pose proof (load_loop_used _ _ _ _ _ _ _ Hloop) as [Hused Hlen].
  exists parts. split; [done|].
  destruct parts as [|p parts]; injection Hret as <- <-.
  - split; [|done]. symmetry in Hlen. apply nil_length_inv in Hlen.
    by rewrite <-Hused, Hlen.
  - split; [done|]. apply stable_sort_Permutation.
Qed.

(** X11. The merge returns exactly when [pd.read_csv] can read every
    candidate file, with or without a year, and [to_long] returns on every
    candidate file that has a year.  So the merge fails exactly when some
    candidate file cannot be read or [to_long] fails on a file with a year;
    a file without a year is read and then passed over before it is
    normalised, so the shape of its table cannot make the merge fail. *)
Theorem X11_merge_fails_only_on_a_file_with_a_year dir fs :
  (∃ res, load' dir fs = Ok res) ↔
  Forall readable (candidate_files fs)
  ∧ ∀ f y, f ∈ tables (candidate_files fs) → resolve_year dir f = Some y →
           ∃ part, to_long' (load_one_csv f.2) y = Ok part.
Proof.
  rewrite <-load_loop_Ok. unfold load_dataset_from_folder. split.
  - intros (res & ([ps us] & Hloop & _)%result_bind_Ok). by eexists.
  - intros [[ps us] Hloop]. rewrite Hloop. simpl.
    destruct ps; by eexists.
Qed.

Lemma string_prefix_app a b t :
  String.prefix (a +:+ b) t = true → String.prefix a t = true.
Proof.
  revert t. induction a as [|c a IH]; intros t.
  - intros _. by destruct t.
  - rewrite string_app_cons. destruct t as [|d t]; [done|].
    simpl. destruct (ascii_dec c d); [apply IH|done].
Qed.

Lemma ends_with_data_csv s :
  Str.ends_with "_data.csv" s = true → Str.ends_with ".csv" s = true.
Proof.
  unfold Str.ends_with.
  change (String.rev "_data.csv") with (String.rev ".csv" +:+ "atad_").
  apply string_prefix_app.
Qed.

Lemma elem_of_glob_sorted suffix (fs : folder) f :
  f ∈ glob_sorted suffix fs ↔ f ∈ fs ∧ Str.ends_with suffix f.1 = true.
Proof.
  unfold glob_sorted. rewrite elem_of_stable_sort, list_elem_of_filter. tauto.
Qed.

Lemma elem_of_candidate_files (fs : folder) f :
  f ∈ candidate_files fs →
  f ∈ fs ∧ Str.ends_with ".csv" f.1 = true
  ∧ ((∃ g, g ∈ fs ∧ Str.ends_with "_data.csv" g.1 = true) →
     Str.ends_with "_data.csv" f.1 = true).
Proof.
  unfold candidate_files.
  destruct (glob_sorted "_data.csv" fs) as [|g0 gs] eqn:E.
  - intros [Hin Hcsv]%elem_of_glob_sorted. split; [done|]. split; [done|].
    intros (g & Hg & Hsuf).
    assert (g ∈ glob_sorted "_data.csv" fs) as Hin'
      by (by apply elem_of_glob_sorted).
    rewrite E in Hin'. by apply elem_of_nil in Hin'.
  - rewrite <-E. intros [Hin Hsuf]%elem_of_glob_sorted.
    split; [done|]. split; [by apply ends_with_data_csv|done].
Qed.

Lemma candidate_files_sorted (fs : folder) :
  StronglySorted (λ f g, (f.1 ≤ g.1)%string) (candidate_files fs).
Proof.
  assert (∀ suffix, StronglySorted (λ f g : string * csv_file,
                                      (f.1 ≤ g.1)%string)
                      (glob_sorted suffix fs)) as Hglob.
  { intros suffix. unfold glob_sorted.
    eapply StronglySorted_mono; [|apply stable_sort_StronglySorted].
    - intros x y. unfold le_rel. apply bool_decide_eq_true.
    - intros x y. rewrite !bool_decide_eq_true. apply total, _.
    - intros x y z. rewrite !bool_decide_eq_true. by etrans. }
  unfold candidate_files.
  destruct (glob_sorted "_data.csv" fs) as [|g0 gs] eqn:E; [apply Hglob|].
  rewrite <-E. apply Hglob.
Qed.

Lemma tables_sorted (fs : folder) :
  StronglySorted (λ f g, (f.1 ≤ g.1)%string) fs →
  StronglySorted (λ f g, (f.1 ≤ g.1)%string) (tables fs).
Proof.
  induction 1 as [|[n [raw|e]] fs Hfs IH Hall]; [constructor| |done].
  rewrite tables_cons_parsed. constructor; [done|].
  apply Forall_forall. intros [m raw'] Hin%elem_of_tables.
  rewrite Forall_forall in Hall. by apply (Hall (m, Parsed raw')).
Qed.

(** X9. Every used file is a file of the folder whose name ends with [.csv];
    and as soon as the folder holds a file named [..._data.csv], only files
    with such a name are used. *)
Theorem X9_used_files_match_the_pattern dir fs data used name :
  load' dir fs = Ok (data, used) →
  name ∈ used →
  (∃ table, (name, Parsed table) ∈ fs)
  ∧ Str.ends_with ".csv" name = true
  ∧ ((∃ g, g ∈ fs ∧ Str.ends_with "_data.csv" g.1 = true) →
     Str.ends_with "_data.csv" name = true).
Proof.
  unfold load_dataset_from_folder.
  intros ([parts us] & Hloop & Hret)%result_bind_Ok Hname.
  apply load_loop_used in Hloop as [Hused Hlen].
  assert (name ∈ us) as Hin.
  { destruct parts; injection Hret as <- <-; [by apply elem_of_nil in Hname|done]. }
  rewrite Hused in Hin.
  apply list_elem_of_fmap in Hin as ([n table] & -> & [_ Hf]%list_elem_of_filter).
  apply elem_of_tables, elem_of_candidate_files in Hf as (Hfs & Hcsv & Hdata).
  split; [by exists table|done].
Qed.

(** X10. The used-files list is in ascending order of file name. *)
Theorem X10_used_files_are_sorted dir fs data used :
  load_dataset_from_folder to_numeric_str str_of_num astype_str_na dir fs
  = Ok (data, used) →
  StronglySorted (λ a b, (a ≤ b)%string) used.
Proof.
  unfold load_dataset_from_folder.
  intros ([parts us] & Hloop & Hret)%result_bind_Ok.
  apply load_loop_used in Hloop as [Hused Hlen].
  destruct parts; injection Hret as <- <-; [constructor|].
  rewrite Hused.
  apply (StronglySorted_fmap fst (λ f g, (f.1 ≤ g.1)%string)); [done|].
  apply StronglySorted_filter, tables_sorted, candidate_files_sorted.
Qed.

End NormalizerMore.

(** ** The filtered view: which rows it holds *)

Lemma filter_all {A} (P : A → Prop) `{∀ x, Decision (P x)} (l : list A) :
  (∀ x, x ∈ l → P x) → filter P l = l.
Proof.
  induction l as [|a l IH]; intros Hall; [done|].
  rewrite filter_cons, decide_True by (apply Hall; left).
  f_equal. apply IH. intros x Hx. apply Hall. by right.
Qed.

Lemma apply_filters_year df c r :
  r ∈ apply_filters df c → Year r ∈ selected_years c.
Proof.
  unfold apply_filters.
  destruct (mode c); [|destruct (manual_brands c)];
    rewrite ?list_elem_of_filter, ?elem_of_isin; tauto.
Qed.

(** X12. The filters only remove rows: the records of the view are a
    subsequence of the dataset (same records, same order), each of a selected
    year; with no year selected the view is empty. *)
Theorem X12_view_is_a_subsequence df c :
  base <$> filtered_view df c `sublist_of` df
  ∧ (∀ v, v ∈ filtered_view df c → Year (base v) ∈ selected_years c)
  ∧ (selected_years c = [] → filtered_view df c = []).
Proof.
  rewrite base_filtered_view. split; [apply apply_filters_sublist|].
  assert (∀ v, v ∈ filtered_view df c → Year (base v) ∈ selected_years c)
    as Hyears.
  { intros v Hv. apply (apply_filters_year df c).
    rewrite <-base_filtered_view. by apply list_elem_of_fmap_2. }
  split; [done|]. intros Hnone.
  destruct (filtered_view df c) as [|v vs]; [done|].
  specialize (Hyears v (list_elem_of_here _ _)).
  rewrite Hnone in Hyears. by apply elem_of_nil in Hyears.
Qed.

Lemma nlargest_all n g : (length g ≤ n)%nat → nlargest n g ≡ₚ g.
Proof.
  intros Hlen. unfold nlargest.
  rewrite take_ge by (by rewrite length_stable_sort).
  apply stable_sort_Permutation.
Qed.

(** X13. In the mode "top N per year", when no selected year has more than N
    rows, the brand filter removes nothing: the view holds every row of the
    selected years. *)
Theorem X13_top_n_large_keeps_all df c :
  mode c = TopPerYear →
  (∀ y, (length (in_year y (filter (λ r, Year r ∈ selected_years c) df))
         ≤ topn c)%nat) →
  base <$> filtered_view df c = filter (λ r, Year r ∈ selected_years c) df.
Proof.
  intros Hmode Hlen. rewrite base_filtered_view. unfold apply_filters.
  rewrite Hmode, year_filter_eq.
  set (df_y := filter (λ r, Year r ∈ selected_years c) df) in *.
  apply filter_all. intros r Hr. apply elem_of_isin, elem_of_top_brands.
  exists (Year r), r. split; [|done].
  rewrite nlargest_all by apply Hlen.
  by apply list_elem_of_filter.
Qed.

Lemma stable_sort_head {A} (le : A → A → bool) l x xs :
  (∀ a b, le a b = true ∨ le b a = true) →
  (∀ a b d, le a b = true → le b d = true → le a d = true) →
  stable_sort le l = x :: xs → ∀ y, y ∈ l → y = x ∨ le x y = true.
Proof.
  intros Htot Htrans Hs y Hy.
  pose proof (stable_sort_StronglySorted le Htot Htrans l) as Hsorted.
  apply (elem_of_stable_sort le) in Hy. rewrite Hs in Hy, Hsorted.
  apply StronglySorted_inv in Hsorted as [_ Hall].
  rewrite Forall_forall in Hall.
  apply elem_of_cons in Hy as [->|Hy]; [by left|right; by apply Hall].
Qed.

(** X14. In the mode "top N per year" with N at least 1, every selected year
    that has records keeps a best seller: the view holds a row of that year
    whose quantity no record of the year exceeds. *)
Theorem X14_best_seller_is_kept df c y :
  mode c = TopPerYear →
  (1 ≤ topn c)%nat →
  y ∈ selected_years c →
  y ∈ Year <$> df →
  ∃ r, r ∈ base <$> filtered_view df c ∧ Year r = y
       ∧ ∀ r', r' ∈ df → Year r' = y → (Retail r' <= Retail r)%Q.
Proof.
  intros Hmode Hn Hsel (r0 & Hy0 & Hr0)%list_elem_of_fmap.
  rewrite base_filtered_view. unfold apply_filters.
  rewrite Hmode, year_filter_eq.
  set (df_y := filter (λ r, Year r ∈ selected_years c) df) in *.
  set (le := λ r1 r2 : record, Qle_bool (Retail r2) (Retail r1)).
  assert (∀ r, r ∈ df → Year r = y → r ∈ in_year y df_y) as Hgroup.
  { intros r Hr Hyr. apply list_elem_of_filter. split; [done|].
    apply list_elem_of_filter. by rewrite Hyr. }
  destruct (stable_sort le (in_year y df_y)) as [|r rs] eqn:Hs.
  { assert (r0 ∈ stable_sort le (in_year y df_y)) as Hin
      by (apply elem_of_stable_sort, Hgroup; done).
    rewrite Hs in Hin. by apply elem_of_nil in Hin. }
  assert (r ∈ in_year y df_y) as Hr.
  { apply (elem_of_stable_sort le). rewrite Hs. by left. }
  pose proof Hr as [Hyr Hrdf]%list_elem_of_filter.
  exists r. split; [|split; [done|]].
  - apply list_elem_of_filter. split; [|done].
    apply elem_of_isin, elem_of_top_brands. exists y, r. split; [|done].
    unfold nlargest. fold le. rewrite Hs.
    destruct (topn c) as [|n]; [lia|]. by left.
  - intros r' Hr' Hyr'.
    destruct (stable_sort_head le (in_year y df_y) r rs) with (y := r')
      as [->|Hle]; [| |done|by apply Hgroup|apply Qle_refl|by apply Qle_bool_iff].
    + intros a b. unfold le. rewrite !Qle_bool_iff.
      destruct (Qlt_le_dec (Retail a) (Retail b)) as [?%Qlt_le_weak|?]; auto.
    + intros a b d. unfold le. rewrite !Qle_bool_iff.
      intros ? ?. by eapply Qle_trans.
Qed.

(** ** Shares of quantities that are not negative *)

(** X15. On a dataset of quantities that are not negative and add up to at
    most [2 ^ 53], the share of a row of the view is either missing (NaN,
    when the total of its year is zero) or a number from 0 to 100; the total
    of its year is at least the quantity of the row and at most [2 ^ 53]. *)
Theorem X15_share_between_0_and_100 df c v :
  in_range df →
  (∀ r, r ∈ df → (0 <= Retail r)%Q) →
  v ∈ filtered_view df c →
  (Share v = NaN ∨ ∃ s, Share v = Fin s ∧ (0 <= s <= 100)%Q)
  ∧ ∃ t, TotalYear v = Fin t
         ∧ (0 <= Retail (base v) <= t)%Q ∧ (t <= inject_Z (2 ^ 53))%Q.
Proof.
  intros Hrange Hnn Hv. split; [by apply (view_share_bounds df c)|].
  apply view_row_share in Hv as (r & Hr & -> & -> & _).
  pose proof (total_by_year_lookup _ _ Hr) as Ht.
  destruct (share_row_spec _ _ _ Ht) as (-> & _ & _).
  pose proof (in_range_sublist _ _ (apply_filters_sublist df c) Hrange)
    as Hrange'.
  pose proof (in_range_sum_where (λ r', Year r' = Year r) _ Hrange')
    as Hbound.
  assert (∀ r', r' ∈ apply_filters df c → (0 <= Retail r')%Q) as Hnn'
    by (intros r' Hr'%elem_of_apply_filters; by apply Hnn).
  eexists. split; [done|]. split; [split|].
  - by apply Hnn'.
  - by apply (sum_where_ge_member (λ r', Year r' = Year r)).
  - eapply Qle_trans; [apply Qle_Qabs|done].
Qed.

(** ** Year over year, in terms of the sums of the two years *)

Lemma pivot_value_present df b y :
  (b, y) ∈ (λ r, (Brand r, Year r)) <$> df →
  pivot_value df b y = Fin (sum_where (λ r, (Brand r, Year r) = (b, y)) df).
Proof. intros Hin. unfold pivot_value. by rewrite decide_True. Qed.

Lemma pivot_value_absent df b y :
  (b, y) ∉ (λ r, (Brand r, Year r)) <$> df → pivot_value df b y = NaN.
Proof. intros Hin. unfold pivot_value. by rewrite decide_False. Qed.

Lemma view_row_yoy df c v :
  v ∈ filtered_view df c →
  base v ∈ df
  ∧ (YoY_Change v, YoY_Growth v)
    = deriveYoY df (Brand (base v)) (Year (base v)).
Proof.
  rewrite filtered_view_fmap.
  intros (r & -> & Hr%elem_of_apply_filters)%list_elem_of_fmap.
  destruct (yoy_rows_keep (pivot_table df) (drop 1 (years df))
              (share_row (total_by_year (apply_filters df c)) r)) as (-> & _).
  split; [done|]. by apply yoy_of_view_row.
Qed.

(** X16. For a row of the view whose brand has a record in the year before,
    with [a] the brand's total of that year and [b] its total of the row's
    year (both over the whole dataset): the change is [b - a], and when [a] is
    not zero the growth is [(b - a) / a * 100]. *)
Theorem X16_yoy_from_the_two_totals df c v :
  v ∈ filtered_view df c →
  (Brand (base v), Year (base v) - 1) ∈ (λ r, (Brand r, Year r)) <$> df →
  let a := sum_where
             (λ r, (Brand r, Year r) = (Brand (base v), Year (base v) - 1)) df in
  let b := sum_where
             (λ r, (Brand r, Year r) = (Brand (base v), Year (base v))) df in
  YoY_Change v = Fin (b + - a)
  ∧ (¬ (a == 0)%Q → YoY_Growth v = Fin ((b + - a) / a * 100)).
Proof.
  intros [Hbase Hyoy]%view_row_yoy Hprev a b.
  assert (Year (base v) - 1 ∈ Year <$> df) as Hyear.
  { apply list_elem_of_fmap in Hprev as (r & [= _ ->] & Hr).
    by apply list_elem_of_fmap_2. }
  unfold deriveYoY in Hyoy. rewrite decide_True in Hyoy by done.
  rewrite (pivot_value_present df _ (Year (base v) - 1)) in Hyoy by done.
  rewrite (pivot_value_present df _ (Year (base v))) in Hyoy
    by (by apply (list_elem_of_fmap_2 (λ r, (Brand r, Year r)))).
  injection Hyoy as -> ->. fold a b. split; [done|].
  intros Ha. simpl. by rewrite is_zero_false.
Qed.

(** X17. A row of the view whose brand has no record in the year before gets
    no change and no growth (NaN for both), whether the year before is
    missing from the dataset or only the brand is. *)
Theorem X17_no_yoy_without_the_year_before df c v :
  v ∈ filtered_view df c →
  (Brand (base v), Year (base v) - 1) ∉ (λ r, (Brand r, Year r)) <$> df →
  YoY_Change v = NaN ∧ YoY_Growth v = NaN.
Proof.
  intros [Hbase Hyoy]%view_row_yoy Hprev.
  rewrite deriveYoY_absent in Hyoy by (by apply pivot_value_absent).
  by injection Hyoy as -> ->.
Qed.

(** ** The KPI row: growth of the whole market *)

Lemma market_total df y :
  opt_float (market_by_year df !! y) =
  if decide (y ∈ Year <$> df) then Fin (year_total df y) else NaN.
Proof.
  unfold market_by_year. rewrite group_sum_lookup.
  by destruct (decide (y ∈ Year <$> df)).
Qed.

(** X18. On a dataset of whole quantities within [2 ^ 53], the growth of the
    whole market for the KPI year is a number only when the dataset has
    records of that year and of the year before and the total of the year
    before is not zero; it is then [(total - previous) / previous * 100], the
    quotient of two whole numbers within [± 2 ^ 53] by one of magnitude at
    least 1.  In every other case it is NaN: it is never an infinity. *)
Theorem X18_market_growth_is_guarded df kpi_year :
  exact_quantities df →
  market_growth df kpi_year =
  (if decide (kpi_year ∈ Year <$> df ∧ kpi_year - 1 ∈ Year <$> df) then
     if Qeq_bool (year_total df (kpi_year - 1)) 0 then NaN
     else Fin ((year_total df kpi_year + - year_total df (kpi_year - 1))
               / year_total df (kpi_year - 1) * 100)
   else NaN)
  ∧ (∀ y, whole (year_total df y)
          ∧ (Qabs (year_total df y) <= inject_Z (2 ^ 53))%Q
          ∧ (¬ (year_total df y == 0)%Q → (1 <= Qabs (year_total df y))%Q))
  ∧ Float.is_inf (market_growth df kpi_year) = false.
Proof.
  intros Hexact.
  assert (market_growth df kpi_year =
          (if decide (kpi_year ∈ Year <$> df ∧ kpi_year - 1 ∈ Year <$> df) then
             if Qeq_bool (year_total df (kpi_year - 1)) 0 then NaN
             else Fin ((year_total df kpi_year
                        + - year_total df (kpi_year - 1))
                       / year_total df (kpi_year - 1) * 100)
           else NaN)) as Heq.
  { unfold market_growth, market_change, total_kpi, total_prev.
    rewrite !market_total.
    destruct (decide (kpi_year ∈ Year <$> df)) as [Hk|Hk];
      destruct (decide (kpi_year - 1 ∈ Year <$> df)) as [Hp|Hp]; simpl.
    - rewrite decide_True by done. unfold Float.is_zero.
      by destruct (Qeq_bool (year_total df (kpi_year - 1)) 0).
    - rewrite decide_False by tauto. done.
    - rewrite decide_False by tauto. done.
    - rewrite decide_False by tauto. done. }
  split; [exact Heq|]. split.
  - intros y.
    destruct (exact_sum_where (λ r, Year r = y) df Hexact) as [Hwhole Hbound].
    split; [done|]. split; [done|]. by apply whole_nonzero_ge_1.
  - rewrite Heq. by repeat case_match.
Qed.

(** ** The brands eligible as fastest growing *)

Lemma pivot_col_lookup_brand df y b :
  b ∈ Brand <$> df →
  pivot_col (pivot_table df) y !! b = Some (pivot_value df b y).
Proof.
  intros (r & -> & Hr)%list_elem_of_fmap. by apply pivot_col_lookup.
Qed.

Lemma elem_of_sorted_index df b :
  b ∈ sorted_index (pivot_table df) ↔ b ∈ Brand <$> df.
Proof.
  unfold sorted_index. simpl. by rewrite elem_of_stable_sort, elem_of_unique.
Qed.

(** The row of the frame of [eligible] for a brand of the dataset. *)
Lemma eligible_frame_row df k b :
  b ∈ Brand <$> df →
  let base := pivot_col (pivot_table df) (k - 1) in
  let curr := pivot_col (pivot_table df) k in
  series_map base b = pivot_value df b (k - 1)
  ∧ series_map (map_zip_with Float.sub curr base) b
    = Float.sub (pivot_value df b k) (pivot_value df b (k - 1))
  ∧ series_map ((λ x, Float.mul x (Fin 100))
                  <$> map_zip_with Float.div
                        (map_zip_with Float.sub curr base) base) b
    = Float.mul
        (Float.div (Float.sub (pivot_value df b k) (pivot_value df b (k - 1)))
           (pivot_value df b (k - 1)))
        (Fin 100).
Proof.
  intros Hb base curr. unfold series_map, base, curr.
  rewrite lookup_fmap, !map_lookup_zip_with, !pivot_col_lookup_brand by done.
  done.
Qed.

Lemma pivot_value_cases df b y :
  pivot_value df b y = NaN ∨ ∃ q, pivot_value df b y = Fin q.
Proof.
  unfold pivot_value. destruct (decide _); [right; by eexists|by left].
Qed.

Lemma float_ge_Fin x q :
  float_ge x q = true → Float.isna x = false →
  x = PInf ∨ ∃ a, x = Fin a ∧ (q <= a)%Q.
Proof.
  destruct x as [a| | |]; simpl; try done; [|by left].
  intros Hle%Qle_bool_iff _. right. by exists a.
Qed.

Lemma pivot_value_exact df b y a :
  exact_quantities df → pivot_value df b y = Fin a →
  whole a ∧ (Qabs a <= inject_Z (2 ^ 53))%Q.
Proof.
  intros Hexact. unfold pivot_value.
  destruct (decide _); [|discriminate]. intros [= <-].
  by apply exact_sum_where.
Qed.

(** X19. On a dataset of whole quantities within [2 ^ 53], every row of
    [eligible] is a brand with records in both the KPI year and the year
    before, with a base (its total of the year before) of at least 1000
    units; its change and growth are the numbers [curr - base] and
    [(curr - base) / base * 100], of whole numbers within [± 2 ^ 53], never
    NaN and never an infinity.  And every such brand has a row. *)
Theorem X19_eligible_rows df kpi_year rows :
  exact_quantities df →
  eligible df kpi_year = Some rows →
  (∀ e, e ∈ rows →
     ∃ a b,
       pivot_value df (e_Brand e) (kpi_year - 1) = Fin a
       ∧ pivot_value df (e_Brand e) kpi_year = Fin b
       ∧ (MIN_BASE_UNITS <= a)%Q
       ∧ whole a ∧ whole b
       ∧ (a <= inject_Z (2 ^ 53))%Q ∧ (Qabs b <= inject_Z (2 ^ 53))%Q
       ∧ e_Base e = Fin a
       ∧ e_YoY_Change e = Fin (b + - a)
       ∧ e_YoY_Growth e = Fin ((b + - a) / a * 100))
  ∧ (∀ brand a b,
       pivot_value df brand (kpi_year - 1) = Fin a →
       pivot_value df brand kpi_year = Fin b →
       (MIN_BASE_UNITS <= a)%Q →
       ∃ e, e ∈ rows ∧ e_Brand e = brand).
Proof.
  intros Hexact. unfold eligible.
  destruct (isin (pivot_columns (pivot_table df)) (kpi_year - 1)
            && isin (pivot_columns (pivot_table df)) kpi_year);
    [|discriminate].
  intros [= <-]. split.
  - intros e [Hge [(Hg & Hc & Hb) Hin]%list_elem_of_filter]%list_elem_of_filter.
    apply list_elem_of_fmap in Hin as (brand & -> & Hbrand%elem_of_sorted_index).
    cbn [e_Brand e_Base e_YoY_Change e_YoY_Growth] in *.
    destruct (eligible_frame_row df kpi_year brand Hbrand) as (Ebase & Echange & Egrowth).
    rewrite Ebase in Hb, Hge. rewrite Echange in Hc.
    rewrite Ebase, Echange, Egrowth. clear Ebase Echange Egrowth Hg.
    destruct (pivot_value_cases df brand (kpi_year - 1)) as [Ea|[a Ea]];
      [rewrite Ea in *; done|].
    destruct (pivot_value_cases df brand kpi_year) as [Eb|[b Eb]];
      [rewrite Ea, Eb in *; done|].
    destruct (pivot_value_exact _ _ _ _ Hexact Ea) as [Hwa Hba].
    destruct (pivot_value_exact _ _ _ _ Hexact Eb) as [Hwb Hbb].
    rewrite Ea, Eb in *.
    exists a, b. apply Qle_bool_iff in Hge.
    repeat (split; [done|]).
    split; [eapply Qle_trans; [apply Qle_Qabs|done]|].
    repeat (split; [done|]). simpl.
    rewrite is_zero_false; [done|].
    unfold MIN_BASE_UNITS in Hge. intros Hz. rewrite Hz in Hge. lra.
  - intros brand a b Ea Eb Hge.
    assert (brand ∈ Brand <$> df) as Hbrand.
    { unfold pivot_value in Ea.
      destruct (decide ((brand, kpi_year - 1)
                        ∈ (λ r, (Brand r, Year r)) <$> df)) as [Hin|];
        [|discriminate].
      apply list_elem_of_fmap in Hin as (r & [= -> _] & Hr).
      by apply list_elem_of_fmap_2. }
    destruct (eligible_frame_row df kpi_year brand Hbrand) as (Ebase & Echange & Egrowth).
    assert (¬ (a == 0)%Q) as Ha
      by (unfold MIN_BASE_UNITS in Hge; intros Hz; rewrite Hz in Hge; lra).
    exists {| e_Brand := brand;
              e_YoY_Growth := Fin ((b + - a) / a * 100);
              e_YoY_Change := Fin (b + - a);
              e_Base := Fin a |}.
    split; [|done].
    apply list_elem_of_filter. split; [by apply Qle_bool_iff|].
    apply list_elem_of_filter. split; [done|].
    apply list_elem_of_fmap. exists brand.
    split; [|by apply elem_of_sorted_index].
    rewrite Ebase, Echange, Egrowth, Ea, Eb. simpl.
    by rewrite is_zero_false.
Qed.

(** ** The normalised heat map *)

Lemma Qmaxb_ge a b : (a <= Qmaxb a b)%Q ∧ (b <= Qmaxb a b)%Q.
Proof.
  unfold Qmaxb. destruct (Qle_bool a b) eqn:E.
  - apply Qle_bool_iff in E. split; [done|apply Qle_refl].
  - split; [apply Qle_refl|].
    apply Qlt_le_weak, Qnot_le_lt. intros Hle%Qle_bool_iff. congruence.
Qed.

Lemma foldl_Qmaxb_ge x l :
  (x <= foldl Qmaxb x l)%Q ∧ ∀ y, y ∈ l → (y <= foldl Qmaxb x l)%Q.
Proof.
  revert x. induction l as [|a l IH]; intros x; simpl.
  - split; [apply Qle_refl|]. by intros y ?%elem_of_nil.
  - destruct (IH (Qmaxb x a)) as [Hm Hall].
    destruct (Qmaxb_ge x a) as [Hx Ha]. split.
    + by eapply Qle_trans.
    + intros y [->|Hy]%elem_of_cons; [by eapply Qle_trans|by apply Hall].
Qed.

Lemma foldl_Qmaxb_in x l : foldl Qmaxb x l ∈ x :: l.
Proof.
  revert x. induction l as [|a l IH]; intros x; simpl; [by left|].
  specialize (IH (Qmaxb x a)).
  apply elem_of_cons in IH as [->|IH].
  - unfold Qmaxb. destruct (Qle_bool x a); [right; by left|by left].
  - right. by right.
Qed.

Lemma hm_row_nonneg df_f b q :
  (∀ r, r ∈ df_f → (0 <= Retail r)%Q) → q ∈ hm_row df_f b → (0 <= q)%Q.
Proof.
  intros Hnn (y & -> & _)%list_elem_of_fmap.
  rewrite group_sum_lookup. destruct (decide _); simpl; [|lra].
  by apply sum_where_nonneg.
Qed.

Lemma hm_row_exact df_f b q :
  exact_quantities df_f → q ∈ hm_row df_f b →
  whole q ∧ (Qabs q <= inject_Z (2 ^ 53))%Q.
Proof.
  intros Hexact (y & -> & _)%list_elem_of_fmap.
  rewrite group_sum_lookup. destruct (decide _); simpl.
  - by apply exact_sum_where.
  - split; [apply whole_0|by vm_compute].
Qed.

(** X20. On a view of whole quantities within [2 ^ 53], every cell of the
    heat map normalised per brand (before the power one half is taken) is a
    number, never NaN and never an infinity: the cells of a brand are whole
    numbers within [± 2 ^ 53], they are divided by their maximum when it is
    not zero, which then has a magnitude of at least 1, and a brand whose
    largest cell is zero gets zeros.  When no quantity is negative the cells
    lie between 0 and 1, and a brand with a non-zero row has a cell equal to
    1. *)
Theorem X20_heat_map_normalised df_f b :
  exact_quantities df_f →
  (∀ x, x ∈ hm_normalized_row df_f b →
     ∃ q, x = Fin q
          ∧ ((∀ r, r ∈ df_f → (0 <= Retail r)%Q) → (0 <= q <= 1)%Q))
  ∧ (∀ q, q ∈ hm_row df_f b →
       whole q ∧ (Qabs q <= inject_Z (2 ^ 53))%Q)
  ∧ (∀ m, hm_denom (hm_row df_f b) = Fin m →
       (1 <= Qabs m)%Q
       ∧ ∃ q, Fin q ∈ hm_normalized_row df_f b ∧ (q == 1)%Q).
Proof.
  intros Hexact.
  assert (∀ q, q ∈ hm_row df_f b →
            whole q ∧ (Qabs q <= inject_Z (2 ^ 53))%Q) as Hwhole
    by (intros q Hq; by eapply hm_row_exact).
  unfold hm_normalized_row. revert Hwhole. set (row := hm_row df_f b).
  intros Hwhole.
  assert (∀ q, q ∈ row →
            (∀ r, r ∈ df_f → (0 <= Retail r)%Q) → (0 <= q)%Q) as Hcell
    by (intros q Hq Hnn; by eapply hm_row_nonneg).
  clearbody row. split; [|split; [done|]]; destruct row as [|q0 row].
  - by intros x ?%elem_of_nil.
  - intros x (q & -> & Hq)%list_elem_of_fmap. cbn [hm_denom].
    set (m := foldl Qmaxb q0 row) in *.
    destruct (Float.is_zero m) eqn:Ez.
    + exists 0%Q. split; [done|]. intros _. lra.
    + exists (q / m)%Q. split; [simpl; by rewrite Ez|].
      intros Hnn.
      assert (q <= m)%Q as Hqm.
      { destruct (foldl_Qmaxb_ge q0 row) as [H0 Hall].
        apply elem_of_cons in Hq as [->|Hq]; [done|by apply Hall]. }
      assert (0 <= q)%Q as Hq0 by (by apply Hcell).
      assert (0 <= q0)%Q as Hq00 by (apply Hcell; [by left|done]).
      assert (q0 <= m)%Q as Hq0m
        by (by destruct (foldl_Qmaxb_ge q0 row)).
      assert (¬ (m == 0)%Q) as Hm
        by (intros Hz%Qeq_bool_iff; unfold Float.is_zero in Ez; congruence).
      assert (0 < m)%Q as Hpos by lra.
      split.
      * apply Qle_shift_div_l; [done|]. lra.
      * apply Qle_shift_div_r; [done|]. lra.
  - discriminate.
  - cbn [hm_denom]. set (m := foldl Qmaxb q0 row) in *.
    destruct (Float.is_zero m) eqn:Ez; [discriminate|].
    assert (¬ (m == 0)%Q) as Hm
      by (intros Hz%Qeq_bool_iff; unfold Float.is_zero in Ez; congruence).
    intros m' [= <-]. split.
    + apply whole_nonzero_ge_1; [|done].
      apply Hwhole, foldl_Qmaxb_in.
    + exists (m / m)%Q. split.
      * apply list_elem_of_fmap. exists m. split; [|apply foldl_Qmaxb_in].
        simpl. by rewrite Ez.
      * by field.
Qed.

(** ** The year from the column headers *)

(** X21. [detect_year_from_columns] returns the year of the first header in
    which the pattern matches, and [None] exactly when it matches in no
    header. *)
Theorem X21_first_header_with_a_year cols :
  match detect_year_from_columns cols with
  | Some y =>
      ∃ i c, cols !! i = Some c ∧ search_year c = Some y
             ∧ ∀ j c', (j < i)%nat → cols !! j = Some c' →
                       search_year c' = None
  | None => ∀ c, c ∈ cols → search_year c = None
  end.
Proof.
  induction cols as [|c cols IH]; simpl.
  - by intros c ?%elem_of_nil.
  - destruct (search_year c) as [y|] eqn:E.
    + exists 0%nat, c. split; [done|]. split; [done|]. intros j c' Hj. lia.
    + destruct (detect_year_from_columns cols) as [y|].
      * destruct IH as (i & c0 & Hi & Hc0 & Hmin).
        exists (S i), c0. split; [done|]. split; [done|].
        intros [|j] c' Hj; simpl; [by intros [= <-]|].
        apply Hmin. lia.
      * intros c' [->|Hin]%elem_of_cons; [done|by apply IH].
Qed.

(** ** The further properties at the sample data *)


Lemma X7_merged_dataset_witness :
  Sample.load_dataset_from_folder "data" Extra.folder_2020_2021
  = Ok (Sample.dataset, ["2020_data.csv"; "2021_data.csv"])
  ∧ StronglySorted merged_order Sample.dataset.
Proof.
  assert (Sample.load_dataset_from_folder "data" Extra.folder_2020_2021
          = Ok (Sample.dataset, ["2020_data.csv"; "2021_data.csv"])) as Hload
    by (vm_compute; reflexivity).
  split; [exact Hload|].
  exact (X7_merged_dataset_is_sorted Sample.to_numeric_str Sample.str_of_num
           Sample.astype_str_na _ _ _ _ Hload).
Defined.

Lemma X8_merge_witness :
  Sample.load_dataset_from_folder "data" Extra.folder_2020_2021
  = Ok (Sample.dataset, ["2020_data.csv"; "2021_data.csv"])
  ∧ ∃ parts,
      Forall2 (λ f part, ∃ y, resolve_year "data" f = Some y
                              ∧ Sample.to_long (load_one_csv f.2) y = Ok part)
        (filter (λ f, is_Some (resolve_year "data" f))
           (tables (candidate_files Extra.folder_2020_2021))) parts
      ∧ ["2020_data.csv"; "2021_data.csv"]
        = (filter (λ f, is_Some (resolve_year "data" f))
             (tables (candidate_files Extra.folder_2020_2021))).*1
      ∧ Sample.dataset ≡ₚ concat parts.
Proof.
  assert (Sample.load_dataset_from_folder "data" Extra.folder_2020_2021
          = Ok (Sample.dataset, ["2020_data.csv"; "2021_data.csv"])) as Hload
    by (vm_compute; reflexivity).
  split; [exact Hload|].
  exact (X8_merge_is_the_concatenation Sample.to_numeric_str
           Sample.str_of_num Sample.astype_str_na _ _ _ _ Hload).
Defined.

Lemma X9_used_files_witness :
  Sample.load_dataset_from_folder "data" Extra.folder_2020_2021
  = Ok (Sample.dataset, ["2020_data.csv"; "2021_data.csv"])
  ∧ "2021_data.csv" ∈ ["2020_data.csv"; "2021_data.csv"]
  ∧ Str.ends_with ".csv" "2021_data.csv" = true.
Proof.
  assert (Sample.load_dataset_from_folder "data" Extra.folder_2020_2021
          = Ok (Sample.dataset, ["2020_data.csv"; "2021_data.csv"])) as Hload
    by (vm_compute; reflexivity).
  assert ("2021_data.csv" ∈ ["2020_data.csv"; "2021_data.csv"]) as Hin
    by (apply list_elem_of_further, list_elem_of_here).
  split; [exact Hload|]. split; [exact Hin|].
  exact (proj1 (proj2 (X9_used_files_match_the_pattern Sample.to_numeric_str
                         Sample.str_of_num Sample.astype_str_na _ _ _ _ _ Hload Hin))).
Defined.

Lemma X10_used_files_sorted_witness :
  Sample.load_dataset_from_folder "data" Extra.folder_2020_2021
  = Ok (Sample.dataset, ["2020_data.csv"; "2021_data.csv"])
  ∧ StronglySorted (λ a b, (a ≤ b)%string) ["2020_data.csv"; "2021_data.csv"].
Proof.
  assert (Sample.load_dataset_from_folder "data" Extra.folder_2020_2021
          = Ok (Sample.dataset, ["2020_data.csv"; "2021_data.csv"])) as Hload
    by (vm_compute; reflexivity).
  split; [exact Hload|].
  exact (X10_used_files_are_sorted Sample.to_numeric_str Sample.str_of_num
           Sample.astype_str_na _ _ _ _ Hload).
Defined.

Lemma X13_top_n_large_witness :
  mode Extra.top_5 = TopPerYear
  ∧ (∀ y, (length (in_year y (filter (λ r, Year r ∈ selected_years Extra.top_5)
                                Sample.dataset)) ≤ 5)%nat)
  ∧ base <$> filtered_view Sample.dataset Extra.top_5
    = filter (λ r, Year r ∈ selected_years Extra.top_5) Sample.dataset.
Proof.
  assert (∀ y, (length (in_year y (filter (λ r, Year r ∈ selected_years Extra.top_5)
                                     Sample.dataset)) ≤ 5)%nat) as Hlen.
  { intros y. etrans; [apply length_filter|].
    etrans; [apply length_filter|]. simpl. lia. }
  split; [reflexivity|]. split; [exact Hlen|].
  exact (X13_top_n_large_keeps_all Sample.dataset Extra.top_5 eq_refl Hlen).
Defined.

Lemma X14_best_seller_witness :
  mode Sample.top_1 = TopPerYear
  ∧ (1 ≤ topn Sample.top_1)%nat
  ∧ 2020 ∈ selected_years Sample.top_1
  ∧ 2020 ∈ Year <$> Sample.dataset
  ∧ ∃ r, r ∈ base <$> filtered_view Sample.dataset Sample.top_1
         ∧ Year r = 2020
         ∧ ∀ r', r' ∈ Sample.dataset → Year r' = 2020 →
                 (Retail r' <= Retail r)%Q.
Proof.
  assert (1 ≤ topn Sample.top_1)%nat as Hn by (simpl; lia).
  assert (2020 ∈ selected_years Sample.top_1) as Hsel
    by apply list_elem_of_here.
  assert (2020 ∈ Year <$> Sample.dataset) as Hyear
    by apply list_elem_of_here.
  split; [reflexivity|]. split; [exact Hn|]. split; [exact Hsel|].
  split; [exact Hyear|].
  exact (X14_best_seller_is_kept Sample.dataset Sample.top_1 2020
           eq_refl Hn Hsel Hyear).
Defined.

Lemma X15_share_bounds_witness :
  in_range Sample.dataset
  ∧ (∀ r, r ∈ Sample.dataset → (0 <= Retail r)%Q)
  ∧ Sample.row_toyota_2021 ∈ filtered_view Sample.dataset Sample.top_1
  ∧ (Share Sample.row_toyota_2021 = NaN
     ∨ ∃ s, Share Sample.row_toyota_2021 = Fin s ∧ (0 <= s <= 100)%Q).
Proof.
  assert (Sample.row_toyota_2021 ∈ filtered_view Sample.dataset Sample.top_1)
    as Hin by (vm_compute; apply list_elem_of_further, list_elem_of_here).
  split; [exact sample_dataset_in_range|].
  split; [exact sample_dataset_nonneg|]. split; [exact Hin|].
  exact (proj1 (X15_share_between_0_and_100 _ _ _ sample_dataset_in_range
                  sample_dataset_nonneg Hin)).
Defined.

Lemma X16_yoy_totals_witness :
  Sample.row_toyota_2021 ∈ filtered_view Sample.dataset Sample.top_1
  ∧ ("Toyota", 2020) ∈ (λ r, (Brand r, Year r)) <$> Sample.dataset
  ∧ YoY_Change Sample.row_toyota_2021
    = Fin (sum_where (λ r, (Brand r, Year r) = ("Toyota", 2021))
             Sample.dataset
           + - (sum_where (λ r, (Brand r, Year r) = ("Toyota", 2020))
                  Sample.dataset)).
Proof.
  assert (Sample.row_toyota_2021 ∈ filtered_view Sample.dataset Sample.top_1)
    as Hin by (vm_compute; apply list_elem_of_further, list_elem_of_here).
  assert ((Brand (base Sample.row_toyota_2021),
           Year (base Sample.row_toyota_2021) - 1)
          ∈ (λ r, (Brand r, Year r)) <$> Sample.dataset) as Hprev
    by apply list_elem_of_here.
  split; [exact Hin|]. split; [exact Hprev|].
  exact (proj1 (X16_yoy_from_the_two_totals _ _ _ Hin Hprev)).
Defined.

Lemma X17_no_yoy_witness :
  Extra.row_toyota_2020 ∈ filtered_view Sample.dataset Sample.top_1
  ∧ (("Toyota", 2019) ∉ (λ r, (Brand r, Year r)) <$> Sample.dataset)
  ∧ YoY_Change Extra.row_toyota_2020 = NaN
  ∧ YoY_Growth Extra.row_toyota_2020 = NaN.
Proof.
  assert (Extra.row_toyota_2020 ∈ filtered_view Sample.dataset Sample.top_1)
    as Hin by (vm_compute; apply list_elem_of_here).
  assert ((Brand (base Extra.row_toyota_2020),
           Year (base Extra.row_toyota_2020) - 1)
          ∉ (λ r, (Brand r, Year r)) <$> Sample.dataset) as Hprev
    by (apply (bool_decide_unpack _); vm_compute; exact I).
  split; [exact Hin|]. split; [exact Hprev|].
  exact (X17_no_yoy_without_the_year_before _ _ _ Hin Hprev).
Defined.

Lemma X18_market_growth_witness :
  exact_quantities Sample.dataset
  ∧ market_growth Sample.dataset 2021 = Fin (10000 # 1500)
  ∧ market_growth Sample.dataset 2021
    = Fin ((year_total Sample.dataset 2021
            + - year_total Sample.dataset (2021 - 1))
           / year_total Sample.dataset (2021 - 1) * 100)
  ∧ Float.is_inf (market_growth Sample.dataset 2021) = false.
Proof.
  split; [exact sample_dataset_exact|].
  split; [vm_compute; reflexivity|].
  destruct (X18_market_growth_is_guarded Sample.dataset 2021
              sample_dataset_exact) as (Heq & _ & Hinf).
  split; [exact Heq | exact Hinf].
Defined.

Lemma X19_eligible_witness :
  exact_quantities Sample.dataset
  ∧ eligible Sample.dataset 2021 = Some [Extra.eligible_toyota]
  ∧ pivot_value Sample.dataset "Toyota" (2021 - 1) = Fin 1000
  ∧ pivot_value Sample.dataset "Toyota" 2021 = Fin 1200
  ∧ (MIN_BASE_UNITS <= 1000)%Q
  ∧ ∃ e, e ∈ [Extra.eligible_toyota] ∧ e_Brand e = "Toyota".
Proof.
  assert (eligible Sample.dataset 2021 = Some [Extra.eligible_toyota]) as Hel
    by (vm_compute; reflexivity).
  assert (pivot_value Sample.dataset "Toyota" (2021 - 1) = Fin 1000) as Ha
    by (vm_compute; reflexivity).
  assert (pivot_value Sample.dataset "Toyota" 2021 = Fin 1200) as Hb
    by (vm_compute; reflexivity).
  assert (MIN_BASE_UNITS <= 1000)%Q as Hge by (by vm_compute).
  split; [exact sample_dataset_exact|].
  split; [exact Hel|]. split; [exact Ha|]. split; [exact Hb|].
  split; [exact Hge|].
  exact (proj2 (X19_eligible_rows _ _ _ sample_dataset_exact Hel)
           "Toyota" 1000%Q 1200%Q Ha Hb Hge).
Defined.

Lemma X20_heat_map_witness :
  exact_quantities Sample.dataset
  ∧ hm_normalized_row Sample.dataset "Toyota"
    = [Fin (1000 # 1200); Fin (1200 # 1200)]
  ∧ hm_denom (hm_row Sample.dataset "Toyota") = Fin 1200
  ∧ (1 <= Qabs 1200)%Q
  ∧ ∃ q, Fin q ∈ hm_normalized_row Sample.dataset "Toyota" ∧ (q == 1)%Q.
Proof.
  assert (hm_denom (hm_row Sample.dataset "Toyota") = Fin 1200) as Hm
    by (vm_compute; reflexivity).
  split; [exact sample_dataset_exact|].
  split; [vm_compute; reflexivity|]. split; [exact Hm|].
  exact (proj2 (proj2 (X20_heat_map_normalised Sample.dataset "Toyota"
                         sample_dataset_exact)) _ Hm).
Defined.
